(** * darwin-symbolic-hotkeys: the shortcut table scripts

    A shallow embedding of [scripts/parse-shortcuts.py] (the builder of the
    normalized shortcut tree) and of [scripts/generate-tree.py] (the two
    renderers), with the properties of the specification stated over them.

    Text.  A Python [str] is a [string] of the standard library, read as
    ASCII text: the case mappings and the white space class of [Str] are
    those of Python on the code points 0 to 127, the alphabet of every
    literal of the two scripts.  [Str.is_ascii] names that domain.  What
    Python does with the other code points (the further white space of
    Unicode, such as U+0085 and U+00A0, and its case mappings, such as the
    one of U+00DF) is not modelled: the theorems that say what becomes
    of the white space or of the case of a name are stated for ASCII
    names, with the hypothesis [Str.is_ascii].

    Dictionaries.  A Python [dict] keeps its keys in the order of their
    first insertion, and both scripts depend on it; it is an association
    list here, updated in place when the key is already there. *)

From Stdlib Require Import String Ascii List ZArith Bool Arith Lia.
From Stdlib Require Import Numbers.DecimalString.
Import ListNotations.

Local Open Scope string_scope.
Local Open Scope list_scope.

(** ** Characters and the [str] methods the scripts call *)

Module Str.

Definition newline : ascii := ascii_of_nat 10.

Definition between (lo hi : nat) (c : ascii) : bool :=
  (lo <=? nat_of_ascii c)%nat && (nat_of_ascii c <=? hi)%nat.

(** [str.isspace] of one ASCII character, which is also the class [\s]
    of [re] on a [str] pattern there: tab to carriage return, the four
    separators [\x1c]-[\x1f], and the blank.  The white space of Unicode
    above 127 is not in it. *)
Definition is_space (c : ascii) : bool :=
  between 9 13 c || between 28 32 c.

Definition is_upper (c : ascii) : bool := between 65 90 c.
Definition is_lower (c : ascii) : bool := between 97 122 c.
Definition is_digit (c : ascii) : bool := between 48 57 c.

(** [s.isascii()]: every character of [s] is below 128.  On these strings
    the functions of this module are the methods of [str]. *)
Fixpoint is_ascii (s : string) : bool :=
  match s with
  | EmptyString => true
  | String c s' => (nat_of_ascii c <? 128)%nat && is_ascii s'
  end.

(** The class [[a-zA-Z0-9]]. *)
Definition is_alnum (c : ascii) : bool :=
  is_lower c || is_upper c || is_digit c.

(** [str.lower] and [str.upper] of one ASCII character; the case mappings
    of Unicode above 127 are not in them. *)
Definition lower_char (c : ascii) : ascii :=
  if is_upper c then ascii_of_nat (nat_of_ascii c + 32) else c.

Definition upper_char (c : ascii) : ascii :=
  if is_lower c then ascii_of_nat (nat_of_ascii c - 32) else c.

Fixpoint map (f : ascii -> ascii) (s : string) : string :=
  match s with
  | EmptyString => EmptyString
  | String c s' => String (f c) (map f s')
  end.

Fixpoint filter (p : ascii -> bool) (s : string) : string :=
  match s with
  | EmptyString => EmptyString
  | String c s' => if p c then String c (filter p s') else filter p s'
  end.

(** [s.lstrip()] *)
Fixpoint lstrip (s : string) : string :=
  match s with
  | String c s' => if is_space c then lstrip s' else s
  | EmptyString => EmptyString
  end.

(** The white space at the head of [s], which [lstrip] removes. *)
Fixpoint lspace (s : string) : string :=
  match s with
  | String c s' => if is_space c then String c (lspace s') else EmptyString
  | EmptyString => EmptyString
  end.

(** [s[-1]], if [s] is not empty. *)
Fixpoint last (s : string) : option ascii :=
  match s with
  | EmptyString => None
  | String c s' =>
      match last s' with
      | Some d => Some d
      | None => Some c
      end
  end.

(** [s.startswith(p)] *)
Fixpoint startswith (s p : string) {struct p} : bool :=
  match p with
  | EmptyString => true
  | String a p' =>
      match s with
      | String b s' => Ascii.eqb a b && startswith s' p'
      | EmptyString => false
      end
  end.

(** [s.lower()], of ASCII text. *)
Definition lower (s : string) : string := map lower_char s.

(** [s.capitalize()], of ASCII text: the first character in upper case,
    the rest in lower case.  (Python maps the first character to title
    case, which is upper case on the ASCII range.) *)
Definition capitalize (s : string) : string :=
  match s with
  | EmptyString => EmptyString
  | String c s' => String (upper_char c) (lower s')
  end.

(** [s.split()], of ASCII text: the maximal runs of characters that are
    not white space.  [word] is the run being read. *)
Fixpoint split_from (word : string) (s : string) : list string :=
  match s with
  | EmptyString =>
      match word with EmptyString => [] | _ => [word] end
  | String c s' =>
      if is_space c then
        match word with
        | EmptyString => split_from EmptyString s'
        | _ => word :: split_from EmptyString s'
        end
      else split_from (word ++ String c EmptyString) s'
  end.

Definition split (s : string) : list string := split_from EmptyString s.

(** [str(n)] for an [int]. *)
Definition of_Z (n : Z) : string := NilZero.string_of_int (Z.to_int n).

Definition of_nat (n : nat) : string := of_Z (Z.of_nat n).

(** [sep.join(lines)] *)
Definition join (sep : string) (lines : list string) : string :=
  String.concat sep lines.

End Str.

(** ** The fragment of [re] the scripts use

    The five patterns of [parse-shortcuts.py] are sequences of literal
    characters, character classes, a greedy starred class, [^] and [$].
    [match_here] is the backtracking matcher of such a sequence at one
    position; [sub] is [re.sub(pattern, repl, s)]: the leftmost match is
    replaced, the search goes on after it, and an empty match is followed
    by a copy of the next character. *)

Module Re.

Inductive atom : Type :=
| Bol                            (* ^ *)
| Eol                            (* $ *)
| Lit (c : ascii)
| Cls (p : ascii -> bool)
| Star (p : ascii -> bool).      (* a class under a greedy star *)

Definition regex := list atom.

Fixpoint lits (s : string) : regex :=
  match s with
  | EmptyString => []
  | String c s' => Lit c :: lits s'
  end.

(** [$] holds at the end of the string and, as no flag is given, also just
    before a newline that ends the string. *)
Definition at_eol (s : string) : bool :=
  match s with
  | EmptyString => true
  | String c EmptyString => Ascii.eqb c Str.newline
  | _ => false
  end.

(** The greedy star: the longest run first, one character given back at a
    time while the rest of the pattern, [k], fails. *)
Fixpoint star_here (p : ascii -> bool) (k : bool -> string -> option nat)
    (bos : bool) (s : string) : option nat :=
  match s with
  | String c s' =>
      if p c then
        match star_here p k false s' with
        | Some n => Some (S n)
        | None => k bos s
        end
      else k bos s
  | EmptyString => k bos s
  end.

(** The number of characters a match of [r] at the head of [s] takes;
    [bos] tells whether the head of [s] is the beginning of the subject. *)
Fixpoint match_here (r : regex) (bos : bool) (s : string) : option nat :=
  match r with
  | [] => Some 0%nat
  | Bol :: r' => if bos then match_here r' bos s else None
  | Eol :: r' => if at_eol s then match_here r' bos s else None
  | Lit c :: r' =>
      match s with
      | String d s' =>
          if Ascii.eqb c d then option_map S (match_here r' false s') else None
      | EmptyString => None
      end
  | Cls p :: r' =>
      match s with
      | String d s' =>
          if p d then option_map S (match_here r' false s') else None
      | EmptyString => None
      end
  | Star p :: r' => star_here p (match_here r') bos s
  end.

(** [skip] counts the characters of the last match that are still ahead. *)
Fixpoint sub_from (r : regex) (repl : string) (bos : bool) (skip : nat)
    (s : string) : string :=
  match skip with
  | S k =>
      match s with
      | String _ s' => sub_from r repl false k s'
      | EmptyString => EmptyString
      end
  | O =>
      match match_here r bos s with
      | Some (S n) =>
          repl ++ match s with
                  | String _ s' => sub_from r repl false n s'
                  | EmptyString => EmptyString
                  end
      | Some O =>
          repl ++ match s with
                  | String c s' => String c (sub_from r repl false 0 s')
                  | EmptyString => EmptyString
                  end
      | None =>
          match s with
          | String c s' => String c (sub_from r repl false 0 s')
          | EmptyString => EmptyString
          end
      end
  end.

Definition sub (r : regex) (repl : string) (s : string) : string :=
  sub_from r repl true 0 s.

End Re.

(** ** [parse-shortcuts.py]: names *)

(** [r'^DO_NOT_LOCALIZE:\s*'] *)
Definition re_do_not_localize : Re.regex :=
  Re.Bol :: Re.lits "DO_NOT_LOCALIZE:" ++ [Re.Star Str.is_space].

(** [r'\s*\(AX_DESCRIPTION\)$'] *)
Definition re_ax_description : Re.regex :=
  Re.Star Str.is_space :: Re.lits "(AX_DESCRIPTION)" ++ [Re.Eol].

(** [r'\s*\(window management\)$'] *)
Definition re_window_management : Re.regex :=
  Re.Star Str.is_space :: Re.lits "(window management)" ++ [Re.Eol].

(** [r'[/\-]'] *)
Definition is_slash_or_dash (c : ascii) : bool :=
  Ascii.eqb c "/"%char || Ascii.eqb c "-"%char.

Definition re_slash_dash : Re.regex := [Re.Cls is_slash_or_dash].

(** [r'[^a-zA-Z0-9]'] *)
Definition re_non_alnum : Re.regex :=
  [Re.Cls (fun c => negb (Str.is_alnum c))].

Definition to_camel_case (s : string) : string :=
  let s := Re.sub re_do_not_localize "" s in
  let s := Re.sub re_ax_description "" s in
  let s := Re.sub re_window_management "" s in
  let s := Re.sub re_slash_dash " " s in
  let words := Str.split s in
  match words with
  | [] => ""
  | first :: rest =>
      let result :=
        fold_left (fun result word => (result ++ Str.capitalize word)%string)
                  rest (Str.lower first) in
      Re.sub re_non_alnum "" result
  end.

Definition clean_name (s : string) : string :=
  Re.sub re_do_not_localize "" s.

(** ** Dictionaries *)

Definition dict (V : Type) : Type := list (string * V).

(** [d[k] = v] *)
Fixpoint dict_set {V : Type} (k : string) (v : V) (d : dict V) : dict V :=
  match d with
  | [] => [(k, v)]
  | (k', v') :: d' =>
      if String.eqb k' k then (k, v) :: d' else (k', v') :: dict_set k v d'
  end.

(** [d.get(k)] *)
Fixpoint dict_get {V : Type} (k : string) (d : dict V) : option V :=
  match d with
  | [] => None
  | (k', v) :: d' => if String.eqb k' k then Some v else dict_get k d'
  end.

Definition keys {V : Type} (d : dict V) : list string := map fst d.
Definition values {V : Type} (d : dict V) : list V := map snd d.

(** The dictionary with the same keys in the same order and [f] of each
    value. *)
Definition dict_map {V W : Type} (f : V -> W) (d : dict V) : dict W :=
  map (fun item => (fst item, f (snd item))) d.

(** [o.get(field, default)] for a field that may be absent. *)
Definition get {A : Type} (field : option A) (default : A) : A :=
  match field with
  | Some a => a
  | None => default
  end.

(** ** [parse-shortcuts.py]: the raw table and the normalized tree *)

Scheme All for list.
Scheme All for option.
Scheme All for prod.

(** A node of the vendor property list; a field that the node does not
    carry is [None], and [elements] tells an absent list from an empty
    one, as ['elements' in elem] does. *)
Inductive rawnode : Type :=
  RawNode {
    name : option string;
    node_class : option string;
    sybmolichotkey : option Z;
    slow_sybmolichotkey : option Z;
    identifier : option string;
    key : option string;
    modifier : option Z;
    charKey : option string;
    enabled : option bool;
    elements : option (list rawnode)
  }.

(** The dictionary that [parse_shortcut_element] builds for a shortcut. *)
Record shortcut : Type :=
  {
    id : Z;
    shortcut_name : string;
    shortcut_nixName : string;
    defaultKey : option string;
    defaultModifier : option Z;
    defaultCharKey : option string;
    defaultEnabled : option bool;
    slowId : option Z;
    shortcut_identifier : option string
  }.

(** What [parse_shortcut_element] returns: a shortcut, which has the key
    ['id'], or the dictionary of [parse_group], which has the key
    ['shortcuts']. *)
Inductive normalized : Type :=
| Shortcut (s : shortcut)
| Group (group_name group_nixName group_identifier : string)
        (shortcuts : dict normalized).

(** [parsed.get('nixName', ...)]: both dictionaries carry the key, so the
    default of the source is never taken. *)
Definition nixName (p : normalized) : string :=
  match p with
  | Shortcut s => shortcut_nixName s
  | Group _ n _ _ => n
  end.

Definition normalized_name (p : normalized) : string :=
  match p with
  | Shortcut s => shortcut_name s
  | Group n _ _ _ => n
  end.

(** [p.get('shortcuts', {})] *)
Definition group_shortcuts (p : normalized) : dict normalized :=
  match p with
  | Shortcut _ => []
  | Group _ _ _ shortcuts => shortcuts
  end.

(** The dictionary that [parse_category] builds; ['shortcuts'] and
    ['subgroups'] are set only when they are not empty. *)
Record category : Type :=
  {
    category_name : string;
    category_nixName : string;
    category_identifier : string;
    category_shortcuts : option (dict normalized);
    category_subgroups : option (dict normalized)
  }.

(** [if d:] for a dictionary. *)
Definition nonempty {V : Type} (d : dict V) : option (dict V) :=
  match d with
  | [] => None
  | _ :: _ => Some d
  end.

(** What the loop of [parse_group] does with [parsed], the result of
    [parse_shortcut_element] on a child: a nested group is stored under its
    key as it is, a shortcut only when its key is not empty. *)
Definition group_store (parsed : option normalized)
    (shortcuts : dict normalized) : dict normalized :=
  match parsed with
  | Some (Group _ nix_name _ _ as p) => dict_set nix_name p shortcuts
  | Some (Shortcut s as p) =>
      let nix_name := shortcut_nixName s in
      if String.eqb nix_name "" then shortcuts
      else dict_set nix_name p shortcuts
  | None => shortcuts
  end.

(** The dictionary that [parse_group] returns for the mapping
    [shortcuts]; none when the mapping is empty. *)
Definition group_result (group : rawnode) (shortcuts : dict normalized)
  : option normalized :=
  match shortcuts with
  | [] => None
  | _ :: _ =>
      Some (Group (clean_name (get (name group) ""))
                  (to_camel_case (get (name group) ""))
                  (get (identifier group) "") shortcuts)
  end.

Section Group.

(** [parse_group] calls [parse_shortcut_element] on the children of the
    node that [parse_shortcut_element] was called on. *)
Variable parse_child : rawnode -> option normalized.

(** The body of the loop of [parse_group]. *)
Definition group_step (shortcuts : dict normalized) (elem : rawnode)
  : dict normalized :=
  group_store (parse_child elem) shortcuts.

Definition parse_group_with (group : rawnode) : option normalized :=
  if String.eqb (get (name group) "") "" then None
  else
    match elements group with
    | None => None               (* [get('elements', [])] is empty *)
    | Some elems =>
        match elems with
        | [] => None
        | _ :: _ => group_result group (fold_left group_step elems [])
        end
    end.

End Group.

Fixpoint parse_shortcut_element (element : rawnode) : option normalized :=
  let name_ := get (name element) "" in
  if String.eqb name_ "" then None
  else
    if String.eqb (get (node_class element) "") "DisplayOnlyNode" then None
    else
      match sybmolichotkey element with
      | None =>
          match get (elements element) [] with
          | [] => None
          | _ :: _ => parse_group_with parse_shortcut_element element
          end
      | Some hotkey_id =>
          Some (Shortcut
                  {| id := hotkey_id;
                     shortcut_name := clean_name name_;
                     shortcut_nixName := to_camel_case name_;
                     defaultKey := key element;
                     defaultModifier := modifier element;
                     defaultCharKey := charKey element;
                     defaultEnabled := enabled element;
                     slowId := slow_sybmolichotkey element;
                     shortcut_identifier := identifier element |})
      end.

Definition parse_group (group : rawnode) : option normalized :=
  parse_group_with parse_shortcut_element group.

(** ['elements' in elem and 'sybmolichotkey' not in elem] *)
Definition is_subgroup (elem : rawnode) : bool :=
  match elements elem, sybmolichotkey elem with
  | Some _, None => true
  | _, _ => false
  end.

(** What the loop of [parse_category] does with the result of
    [parse_group] on a child that is a subgroup. *)
Definition category_store_group (parsed : option normalized)
    (acc : dict normalized * dict normalized)
  : dict normalized * dict normalized :=
  match parsed with
  | Some p =>
      if String.eqb (nixName p) "" then acc
      else (fst acc, dict_set (nixName p) p (snd acc))
  | None => acc
  end.

(** What it does with the result of [parse_shortcut_element] on any other
    child: [parsed and 'id' in parsed]. *)
Definition category_store_shortcut (parsed : option normalized)
    (acc : dict normalized * dict normalized)
  : dict normalized * dict normalized :=
  match parsed with
  | Some (Shortcut s as p) =>
      if String.eqb (nixName p) "" then acc
      else (dict_set (nixName p) p (fst acc), snd acc)
  | _ => acc
  end.

(** The body of the loop of [parse_category], on the pair of the two
    dictionaries it fills, [shortcuts] and [subgroups]. *)
Definition category_step (acc : dict normalized * dict normalized)
    (elem : rawnode) : dict normalized * dict normalized :=
  if is_subgroup elem then category_store_group (parse_group elem) acc
  else category_store_shortcut (parse_shortcut_element elem) acc.

(** The dictionary that [parse_category] returns for the two mappings. *)
Definition category_result (node : rawnode)
    (acc : dict normalized * dict normalized) : category :=
  {| category_name := clean_name (get (name node) "");
     category_nixName := to_camel_case (get (name node) "");
     category_identifier := get (identifier node) "";
     category_shortcuts := nonempty (fst acc);
     category_subgroups := nonempty (snd acc) |}.

Definition parse_category (node : rawnode) : option category :=
  if String.eqb (get (name node) "") ""
     || String.eqb (get (identifier node) "") "" then None
  else
    Some (category_result node
            (fold_left category_step (get (elements node) []) ([], []))).

(** What the loop of [main] does with the result of [parse_category]. *)
Definition main_store (parsed : option category)
    (categories : dict category) : dict category :=
  match parsed with
  | Some p =>
      if String.eqb (category_nixName p) "" then categories
      else dict_set (category_nixName p) p categories
  | None => categories
  end.

(** The body of the loop of [main] over the top level nodes. *)
Definition main_step (categories : dict category) (node : rawnode)
  : dict category :=
  main_store (parse_category node) categories.

(** The ['categories'] of the document that [main] writes: the normalized
    tree of the table [data]. *)
Definition build_categories (data : list rawnode) : dict category :=
  fold_left main_step data [].

(** The document handed to [json.dump]. *)
Record output : Type :=
  {
    output_version : string;
    output_generatedFrom : string;
    output_note : string;
    output_categories : dict category
  }.

Definition build_output (data : list rawnode) : output :=
  {| output_version := "macOS 15.x (Sequoia)";
     output_generatedFrom := "DefaultShortcutsTable.xml";
     output_note := "Generated by parse-shortcuts.py. Do not edit manually.";
     output_categories := build_categories data |}.

(** Builders for the raw tables of the examples: a node with a name and
    nothing else, and the same node with one more field. *)
Definition named (n : string) : rawnode :=
  {| name := Some n; node_class := None; sybmolichotkey := None;
     slow_sybmolichotkey := None; identifier := None; key := None;
     modifier := None; charKey := None; enabled := None; elements := None |}.

Definition with_hotkey (i : Z) (e : rawnode) : rawnode :=
  {| name := name e; node_class := node_class e; sybmolichotkey := Some i;
     slow_sybmolichotkey := slow_sybmolichotkey e;
     identifier := identifier e; key := key e; modifier := modifier e;
     charKey := charKey e; enabled := enabled e; elements := elements e |}.

Definition with_identifier (i : string) (e : rawnode) : rawnode :=
  {| name := name e; node_class := node_class e;
     sybmolichotkey := sybmolichotkey e;
     slow_sybmolichotkey := slow_sybmolichotkey e;
     identifier := Some i; key := key e; modifier := modifier e;
     charKey := charKey e; enabled := enabled e; elements := elements e |}.

Definition with_key (k : string) (m : Z) (e : rawnode) : rawnode :=
  {| name := name e; node_class := node_class e;
     sybmolichotkey := sybmolichotkey e;
     slow_sybmolichotkey := slow_sybmolichotkey e;
     identifier := identifier e; key := Some k; modifier := Some m;
     charKey := charKey e; enabled := enabled e; elements := elements e |}.

Definition with_class (c : string) (e : rawnode) : rawnode :=
  {| name := name e; node_class := Some c;
     sybmolichotkey := sybmolichotkey e;
     slow_sybmolichotkey := slow_sybmolichotkey e;
     identifier := identifier e; key := key e; modifier := modifier e;
     charKey := charKey e; enabled := enabled e; elements := elements e |}.

Definition with_elements (l : list rawnode) (e : rawnode) : rawnode :=
  {| name := name e; node_class := node_class e;
     sybmolichotkey := sybmolichotkey e;
     slow_sybmolichotkey := slow_sybmolichotkey e;
     identifier := identifier e; key := key e; modifier := modifier e;
     charKey := charKey e; enabled := enabled e; elements := Some l |}.

(** The raw category of Scenario A. *)
Definition scenario_a : rawnode :=
  with_elements
    [with_key "d" 1048576
       (with_hotkey 64 (named "DO_NOT_LOCALIZE: Turn Do Not Disturb On/Off"))]
    (with_identifier "com.apple.symbolichotkeys.menu"
       (named "Mission Control")).

(** ** [generate-tree.py]

    The renderers read the document back from JSON.  Of an entry of a
    ['shortcuts'] mapping they read ['name'], ['id'] and ['dynamic'] and
    nothing else, so an entry is these three fields, each of which may be
    absent; a nested group, which [parse_group] stores among the shortcuts
    of its parent, is an entry without ['id']. *)

Record entry_data : Type :=
  {
    entry_name : option string;
    entry_id : option Z;
    entry_dynamic : bool          (* whether [get('dynamic')] is true *)
  }.

Record subgroup_data : Type :=
  {
    subgroup_name : option string;
    subgroup_shortcuts : option (dict entry_data)
  }.

Record cat_data : Type :=
  {
    cat_name : option string;
    cat_shortcuts : option (dict entry_data);
    cat_subgroups : option (dict subgroup_data)
  }.

Record tree_data : Type :=
  {
    version : option string;
    dynamicShortcuts : bool;      (* whether [get('dynamicShortcuts')] is true *)
    categories : option (dict cat_data)
  }.

Definition nl : string := String Str.newline "".

(** [f" (ID: {d['id']})" if include_ids and 'id' in d else ""] *)
Definition id_str (include_ids : bool) (d : entry_data) : string :=
  match (if include_ids then entry_id d else None) with
  | Some i => (" (ID: " ++ Str.of_Z i ++ ")")%string
  | None => ""
  end.

Definition dynamic_str (mark : string) (include_dynamic : bool)
    (d : entry_data) : string :=
  if include_dynamic && entry_dynamic d then mark else "".

(** *** [generate_text_tree] *)

Section Text.

Variables include_ids include_dynamic : bool.

(** The line of an entry of a ['shortcuts'] mapping. *)
Definition text_entry_line (indent : string) (item : string * entry_data)
  : string :=
  let (shortcut_key, shortcut_data) := item in
  let name_ := get (entry_name shortcut_data) shortcut_key in
  (indent ++ "- `" ++ shortcut_key ++ "` - **" ++ name_ ++ "**"
   ++ id_str include_ids shortcut_data
   ++ dynamic_str " [dynamic]" include_dynamic shortcut_data)%string.

Definition text_subgroup_line (item : string * subgroup_data) : string :=
  let (subgroup_key, subgroup) := item in
  let subgroup_name_ := get (subgroup_name subgroup) subgroup_key in
  ("    - `" ++ subgroup_key ++ "` (**" ++ subgroup_name_ ++ "**)")%string.

Definition text_category_line (item : string * cat_data) : string :=
  let (cat_key, cat) := item in
  let cat_name_ := get (cat_name cat) cat_key in
  ("  - `" ++ cat_key ++ "` (**" ++ cat_name_ ++ "**)")%string.

(** The bodies of the three loops, each on the list [lines]. *)
Definition text_entry (indent : string) (lines : list string)
    (item : string * entry_data) : list string :=
  lines ++ [text_entry_line indent item].

Definition text_subgroup (lines : list string)
    (item : string * subgroup_data) : list string :=
  let lines := lines ++ [text_subgroup_line item] in
  fold_left (text_entry "      ")
            (get (subgroup_shortcuts (snd item)) []) lines.

Definition text_category (lines : list string)
    (item : string * cat_data) : list string :=
  let lines := lines ++ [text_category_line item] in
  let shortcuts := get (cat_shortcuts (snd item)) [] in
  let subgroups := get (cat_subgroups (snd item)) [] in
  let lines := fold_left (text_entry "    ") shortcuts lines in
  fold_left text_subgroup subgroups lines.

(** The list [lines] when [generate_text_tree] returns. *)
Definition text_lines (data : tree_data) : list string :=
  fold_left text_category (get (categories data) [])
            ["`darwin.symbolicHotkeys`"].

Definition generate_text_tree (data : tree_data) : string :=
  Str.join nl (text_lines data).

End Text.

(** *** [generate_markdown_tree] *)

(** [sum(1 for s in shortcuts.values() if s.get('dynamic'))] *)
Definition count_dynamic (shortcuts : dict entry_data) : nat :=
  fold_left (fun n s => if entry_dynamic s then S n else n)
            (values shortcuts) 0%nat.

(** The two counters of the statistics loop, [total_shortcuts] and
    [dynamic_count]. *)
Definition stats_subgroup (acc : nat * nat) (subgroup : subgroup_data)
  : nat * nat :=
  let (total_shortcuts, dynamic_count) := acc in
  let sub_shortcuts := get (subgroup_shortcuts subgroup) [] in
  (total_shortcuts + List.length sub_shortcuts,
   dynamic_count + count_dynamic sub_shortcuts)%nat.

Definition stats_category (acc : nat * nat) (cat : cat_data) : nat * nat :=
  let (total_shortcuts, dynamic_count) := acc in
  let shortcuts := get (cat_shortcuts cat) [] in
  let acc := (total_shortcuts + List.length shortcuts,
              dynamic_count + count_dynamic shortcuts)%nat in
  fold_left stats_subgroup (values (get (cat_subgroups cat) [])) acc.

Definition statistics (data : tree_data) : nat * nat :=
  fold_left stats_category (values (get (categories data) [])) (0, 0)%nat.

Definition total_shortcuts (data : tree_data) : nat := fst (statistics data).
Definition dynamic_count (data : tree_data) : nat := snd (statistics data).

Section Markdown.

Variables include_ids include_dynamic : bool.

Definition markdown_entry_line (indent : string)
    (item : string * entry_data) : string :=
  let (shortcut_key, shortcut_data) := item in
  let name_ := get (entry_name shortcut_data) shortcut_key in
  (indent ++ "- `" ++ shortcut_key ++ "` - " ++ name_
   ++ id_str include_ids shortcut_data
   ++ dynamic_str " `[dynamic]`" include_dynamic shortcut_data)%string.

Definition markdown_subgroup_line (item : string * subgroup_data) : string :=
  let (subgroup_key, subgroup) := item in
  let subgroup_name_ := get (subgroup_name subgroup) subgroup_key in
  ("  - **" ++ subgroup_key ++ "** (" ++ subgroup_name_ ++ ")")%string.

Definition markdown_category_line (item : string * cat_data) : string :=
  let (cat_key, cat) := item in
  let cat_name_ := get (cat_name cat) cat_key in
  ("- **" ++ cat_key ++ "** (" ++ cat_name_ ++ ")")%string.

Definition markdown_entry (indent : string) (lines : list string)
    (item : string * entry_data) : list string :=
  lines ++ [markdown_entry_line indent item].

Definition markdown_subgroup (lines : list string)
    (item : string * subgroup_data) : list string :=
  let lines := lines ++ [markdown_subgroup_line item] in
  fold_left (markdown_entry "    ")
            (get (subgroup_shortcuts (snd item)) []) lines.

Definition markdown_category (lines : list string)
    (item : string * cat_data) : list string :=
  let lines := lines ++ [markdown_category_line item] in
  let shortcuts := get (cat_shortcuts (snd item)) [] in
  let subgroups := get (cat_subgroups (snd item)) [] in
  let lines := fold_left (markdown_entry "  ") shortcuts lines in
  fold_left markdown_subgroup subgroups lines.

(** The lines before the loop over the categories. *)
Definition markdown_header (data : tree_data) : list string :=
  let lines :=
    ["# darwin-symbolic-hotkeys Options Tree";
     "";
     ("Generated from version: " ++ get (version data) "unknown")%string;
     ("Total categories: "
        ++ Str.of_nat (List.length (get (categories data) [])))%string;
     ""] in
  let lines :=
    if dynamicShortcuts data then
      lines ++ ["> **Note**: Shortcuts marked with `[dynamic]` are dynamically created by macOS.";
                ""]
    else lines in
  let lines := lines ++ ["## darwin.symbolicHotkeys"] in
  lines ++ [""].

(** The statistics block. *)
Definition markdown_statistics (data : tree_data) : list string :=
  ["";
   "## Statistics";
   "";
   ("- Total shortcuts: " ++ Str.of_nat (total_shortcuts data))%string;
   ("- Dynamic shortcuts: " ++ Str.of_nat (dynamic_count data))%string;
   ("- Categories: "
      ++ Str.of_nat (List.length (get (categories data) [])))%string].

(** The list [lines] when [generate_markdown_tree] returns. *)
Definition markdown_lines (data : tree_data) : list string :=
  let lines := markdown_header data in
  let lines :=
    fold_left markdown_category (get (categories data) []) lines in
  lines ++ markdown_statistics data.

Definition generate_markdown_tree (data : tree_data) : string :=
  Str.join nl (markdown_lines data).

End Markdown.

(** ** From one script to the other

    [json.dump] and [json.load] keep the keys and their order: what the
    renderers read of the document that [main] has written. *)

Definition entry_of (p : normalized) : entry_data :=
  {| entry_name := Some (normalized_name p);
     entry_id :=
       match p with
       | Shortcut s => Some (id s)
       | Group _ _ _ _ => None
       end;
     entry_dynamic := false |}.

Definition subgroup_of (p : normalized) : subgroup_data :=
  {| subgroup_name := Some (normalized_name p);
     subgroup_shortcuts :=
       match p with
       | Shortcut _ => None
       | Group _ _ _ shortcuts => Some (dict_map entry_of shortcuts)
       end |}.

Definition cat_of (c : category) : cat_data :=
  {| cat_name := Some (category_name c);
     cat_shortcuts := option_map (dict_map entry_of) (category_shortcuts c);
     cat_subgroups := option_map (dict_map subgroup_of) (category_subgroups c) |}.

Definition tree_of (o : output) : tree_data :=
  {| version := Some (output_version o);
     dynamicShortcuts := false;
     categories := Some (dict_map cat_of (output_categories o)) |}.

(** ** The reports, line by line

    Whether a line of a report is the line of an entry of a ['shortcuts']
    mapping: such a line, and no other, has the key in back quotes right
    after the dash of the second or of the third level. *)
Definition is_entry_line (line : string) : bool :=
  Str.startswith line "  - `" || Str.startswith line "    - `".

(** The number of entries of the ['shortcuts'] mappings of a category and
    of its subgroups. *)
Definition category_entries (cat : cat_data) : nat :=
  (List.length (get (cat_shortcuts cat) [])
   + list_sum (map (fun subgroup =>
                      List.length (get (subgroup_shortcuts subgroup) []))
                   (values (get (cat_subgroups cat) []))))%nat.

(** [line] without its annotation [" (ID: n)"], if it has one. *)
Inductive omits_id : string -> string -> Prop :=
| omits_nothing line : omits_id line line
| omits_annotation before n after :
    omits_id (before ++ " (ID: " ++ Str.of_Z n ++ ")" ++ after)
             (before ++ after).

(** The tree without any ['id']. *)
Definition erase_entry_id (d : entry_data) : entry_data :=
  {| entry_name := entry_name d; entry_id := None;
     entry_dynamic := entry_dynamic d |}.

Definition erase_subgroup_ids (g : subgroup_data) : subgroup_data :=
  {| subgroup_name := subgroup_name g;
     subgroup_shortcuts :=
       option_map (dict_map erase_entry_id) (subgroup_shortcuts g) |}.

Definition erase_cat_ids (c : cat_data) : cat_data :=
  {| cat_name := cat_name c;
     cat_shortcuts := option_map (dict_map erase_entry_id) (cat_shortcuts c);
     cat_subgroups :=
       option_map (dict_map erase_subgroup_ids) (cat_subgroups c) |}.

Definition erase_ids (data : tree_data) : tree_data :=
  {| version := version data;
     dynamicShortcuts := dynamicShortcuts data;
     categories := option_map (dict_map erase_cat_ids) (categories data) |}.

(** The lines that one pass of each loop adds. *)
Definition text_subgroup_lines (include_ids include_dynamic : bool)
    (item : string * subgroup_data) : list string :=
  text_subgroup_line item
  :: map (text_entry_line include_ids include_dynamic "      ")
         (get (subgroup_shortcuts (snd item)) []).

Definition text_category_lines (include_ids include_dynamic : bool)
    (item : string * cat_data) : list string :=
  text_category_line item
  :: map (text_entry_line include_ids include_dynamic "    ")
         (get (cat_shortcuts (snd item)) [])
  ++ flat_map (text_subgroup_lines include_ids include_dynamic)
              (get (cat_subgroups (snd item)) []).

Definition markdown_subgroup_lines (include_ids include_dynamic : bool)
    (item : string * subgroup_data) : list string :=
  markdown_subgroup_line item
  :: map (markdown_entry_line include_ids include_dynamic "    ")
         (get (subgroup_shortcuts (snd item)) []).

Definition markdown_category_lines (include_ids include_dynamic : bool)
    (item : string * cat_data) : list string :=
  markdown_category_line item
  :: map (markdown_entry_line include_ids include_dynamic "  ")
         (get (cat_shortcuts (snd item)) [])
  ++ flat_map (markdown_subgroup_lines include_ids include_dynamic)
              (get (cat_subgroups (snd item)) []).

Definition sample_tree : tree_data :=
  {| version := Some "macOS 15.x (Sequoia)";
     dynamicShortcuts := false;
     categories := Some
       [("missionControl",
         {| cat_name := Some "Mission Control";
            cat_shortcuts := Some
              [("turnDoNotDisturbOnOff",
                {| entry_name := Some "Turn Do Not Disturb On/Off";
                   entry_id := Some 64%Z; entry_dynamic := false |})];
            cat_subgroups := Some
              [("spaces",
                {| subgroup_name := Some "Spaces";
                   subgroup_shortcuts := Some
                     [("moveLeftASpace",
                       {| entry_name := Some "Move left a space";
                          entry_id := Some 79%Z; entry_dynamic := true |});
                      ("nested",
                       {| entry_name := Some "Nested";
                          entry_id := None; entry_dynamic := false |})] |})]
         |})] |}.

(** [sample_tree] as a document that says it has dynamic shortcuts. *)
Definition noted_tree : tree_data :=
  {| version := version sample_tree;
     dynamicShortcuts := true;
     categories := categories sample_tree |}.

(** ** The key synthesis as the specification words it

    [synthesizeKey_spec] follows the seven steps of the specification to
    the letter; [synthesizeKey_amended] differs from it in the two steps
    where [to_camel_case] does something else.  Both are written with the
    plain string functions, not with [re]. *)

(** [Some body] when [s] is [body ++ suffix]. *)
Fixpoint cut_suffix (suffix s : string) : option string :=
  if String.eqb s suffix then Some ""
  else
    match s with
    | EmptyString => None
    | String c s' => option_map (String c) (cut_suffix suffix s')
    end.

(** [Some rest] when [s] is [p ++ rest]. *)
Fixpoint cut_prefix (p s : string) : option string :=
  match p with
  | EmptyString => Some s
  | String a p' =>
      match s with
      | String b s' => if Ascii.eqb a b then cut_prefix p' s' else None
      | EmptyString => None
      end
  end.


(** [s] without the white space at its end. *)
Fixpoint rstrip (s : string) : string :=
  match s with
  | EmptyString => EmptyString
  | String c s' =>
      match rstrip s' with
      | EmptyString =>
          if Str.is_space c then EmptyString else String c EmptyString
      | r => String c r
      end
  end.

(** The annotation [a] taken off the end of [s] together with the white
    space before it; the end of [s] is also the place before a newline
    that ends [s], and that newline stays. *)
Definition strip_annotation (a s : string) : string :=
  match cut_suffix a s with
  | Some body => rstrip body
  | None =>
      match cut_suffix (a ++ nl) s with
      | Some body => rstrip body ++ nl
      | None => s
      end
  end.

Definition slash_dash_to_space (c : ascii) : ascii :=
  if is_slash_or_dash c then " "%char else c.


(** Steps (4) to (7), with [word_case] applied to every word but the
    first. *)
Definition camel_words (word_case : string -> string) (s : string)
  : string :=
  match Str.split s with
  | [] => ""
  | first :: rest =>
      Str.filter Str.is_alnum
        (String.concat "" (Str.lower first :: map word_case rest))
  end.



(** The annotation [a] and the end of the string at the head of [t], as
    the two annotation patterns ask for after their star. *)
Definition tail_match (a t : string) : option nat :=
  Re.match_here (Re.lits a ++ [Re.Eol]) false t.

(** Whether [s] begins with the marker that [clean_name] removes. *)
Definition has_marker (s : string) : bool :=
  Str.startswith s "DO_NOT_LOCALIZE:".

(** The entry [parse_shortcut_element] makes of a node with a hotkey. *)
Definition shortcut_of (element : rawnode) (hotkey_id : Z) : shortcut :=
  {| id := hotkey_id;
     shortcut_name := clean_name (get (name element) "");
     shortcut_nixName := to_camel_case (get (name element) "");
     defaultKey := key element;
     defaultModifier := modifier element;
     defaultCharKey := charKey element;
     defaultEnabled := enabled element;
     slowId := slow_sybmolichotkey element;
     shortcut_identifier := identifier element |}.

(** ** Names in the tree *)

(** Every shortcut at or below [p] has a name that is not empty. *)
Fixpoint shortcuts_named (p : normalized) : Prop :=
  match p with
  | Shortcut s => shortcut_name s <> ""
  | Group _ _ _ shortcuts =>
      (fix all (d : dict normalized) : Prop :=
         match d with
         | [] => True
         | item :: d' => shortcuts_named (snd item) /\ all d'
         end) shortcuts
  end.

(** What [parse_shortcut_element] returns: a shortcut with a key has a
    name, and the shortcuts of a group have names. *)
Definition well_named (p : normalized) : Prop :=
  match p with
  | Shortcut s => shortcut_nixName s <> "" -> shortcut_name s <> ""
  | Group _ _ _ _ => shortcuts_named p
  end.

(** An entry of a mapping of a category: it has a name, and so has every
    shortcut below it. *)
Definition entry_named (item : string * normalized) : Prop :=
  normalized_name (snd item) <> "" /\ shortcuts_named (snd item).

(** A category of the tree: it has a name and an identifier, and its
    entries are named. *)
Definition category_named (c : category) : Prop :=
  category_name c <> ""
  /\ category_identifier c <> ""
  /\ Forall entry_named (get (category_shortcuts c) [])
  /\ Forall entry_named (get (category_subgroups c) []).

(** ** The tables of the examples *)

(** A display-only container among the children of a category. *)
Definition display_only_child : rawnode :=
  with_class "DisplayOnlyNode"
    (with_elements [with_hotkey 60 (named "Select the previous input source")]
       (named "Input Sources")).

Definition display_only_table : rawnode :=
  with_elements [display_only_child]
    (with_identifier "com.apple.keyboard" (named "Keyboard")).

(** A group, inside a subgroup, whose name is the marker and nothing
    else. *)
Definition marker_group : rawnode :=
  with_elements [with_hotkey 79 (named "Move left a space")]
    (named "DO_NOT_LOCALIZE: ").

Definition spaces_group : rawnode :=
  with_elements [marker_group]
    (with_identifier "com.apple.spaces" (named "Spaces")).

Definition marker_group_table : rawnode :=
  with_elements [spaces_group]
    (with_identifier "com.apple.symbolichotkeys.menu"
       (named "Mission Control")).

(** A display-only leaf. *)
Definition heading : rawnode :=
  with_class "DisplayOnlyNode" (with_hotkey 11 (named "Heading")).

(** A top level node with a name and an identifier whose name gives the
    empty key. *)
Definition keyless_category : rawnode :=
  with_elements [with_hotkey 32 (named "Mission Control")]
    (with_identifier "com.apple.symbolichotkeys.menu" (named "-")).

(** ** More of the two scripts *)

(** The name after the three removals at the head of [to_camel_case]:
    the marker, then the two annotations. *)
Definition stripped_name (s : string) : string :=
  strip_annotation "(window management)"
    (strip_annotation "(AX_DESCRIPTION)" (clean_name s)).

(** Whether every character of [s] satisfies [p]. *)
Fixpoint all_chars (p : ascii -> bool) (s : string) : bool :=
  match s with
  | EmptyString => true
  | String c s' => p c && all_chars p s'
  end.

(** *** The summary that [main] of [parse-shortcuts.py] prints *)

(** [cat_count] after the inner loop. *)
Definition summary_count (cat : category) : nat :=
  fold_left
    (fun cat_count subgroup =>
       (cat_count + List.length (group_shortcuts subgroup))%nat)
    (values (get (category_subgroups cat) []))
    (List.length (get (category_shortcuts cat) [])).

Definition summary_line (item : string * category) : string :=
  ("  " ++ fst item ++ ": " ++ Str.of_nat (summary_count (snd item))
   ++ " shortcuts")%string.

(** The body of the loop, on [total_shortcuts] and the lines printed so
    far. *)
Definition summary_step (acc : nat * list string)
    (item : string * category) : nat * list string :=
  ((fst acc + summary_count (snd item))%nat, snd acc ++ [summary_line item]).

(** [total_shortcuts] after the loop. *)
Definition summary_total (categories : dict category) : nat :=
  fst (fold_left summary_step categories (0%nat, [])).

(** The lines printed after the line [Generated: ...]. *)
Definition summary (categories : dict category) : list string :=
  snd (fold_left summary_step categories (0%nat, []))
  ++ [("Total: " ++ Str.of_nat (summary_total categories)
       ++ " shortcuts in " ++ Str.of_nat (List.length categories)
       ++ " categories")%string].

(** *** The mappings of the tree *)

(** [P] holds of the mapping of [p] and of every mapping below it. *)
Fixpoint every_mapping (P : dict normalized -> Prop) (p : normalized)
  : Prop :=
  match p with
  | Shortcut _ => True
  | Group _ _ _ shortcuts =>
      P shortcuts
      /\ (fix all (d : dict normalized) : Prop :=
            match d with
            | [] => True
            | item :: d' => every_mapping P (snd item) /\ all d'
            end) shortcuts
  end.

(** [P] holds of the field if the dictionary has it. *)
Definition present (P : dict normalized -> Prop)
    (field : option (dict normalized)) : Prop :=
  match field with
  | Some d => P d
  | None => True
  end.

(** [P] holds of every mapping of the category [c], at any depth. *)
Definition category_mappings (P : dict normalized -> Prop) (c : category)
  : Prop :=
  present P (category_shortcuts c)
  /\ present P (category_subgroups c)
  /\ Forall (fun item => every_mapping P (snd item))
            (get (category_shortcuts c) [])
  /\ Forall (fun item => every_mapping P (snd item))
            (get (category_subgroups c) []).

Definition tree_mappings (P : dict normalized -> Prop)
    (tree : dict category) : Prop :=
  Forall (fun item => category_mappings P (snd item)) tree.

(** Every entry of [d] is under the key that its ['nixName'] gives. *)
Definition keyed_by_nixName (d : dict normalized) : Prop :=
  forall k v, In (k, v) d -> k = nixName v.

(** What [parse_group] keeps of a mapping it returns. *)
Definition mapping_ok (d : dict normalized) : Prop :=
  d <> [] /\ NoDup (keys d) /\ keyed_by_nixName d.

Definition is_shortcut (p : normalized) : bool :=
  match p with
  | Shortcut _ => true
  | Group _ _ _ _ => false
  end.

(** A mapping of a category: its keys are distinct, not empty and given
    by ['nixName'], its values are all shortcuts or all groups, and the
    mappings below it are as [parse_group] leaves them. *)
Definition level_ok (kind : bool) (d : dict normalized) : Prop :=
  NoDup (keys d)
  /\ keyed_by_nixName d
  /\ Forall (fun item => every_mapping mapping_ok (snd item)
                         /\ is_shortcut (snd item) = kind
                         /\ fst item <> "") d.

Definition category_levels (c : category) : Prop :=
  exists shortcuts subgroups,
    level_ok true shortcuts
    /\ level_ok false subgroups
    /\ category_shortcuts c = nonempty shortcuts
    /\ category_subgroups c = nonempty subgroups.

(** *** Where the shortcuts come from *)

(** The node [e] and all the nodes below it. *)
Fixpoint nodes (e : rawnode) : list rawnode :=
  e :: match elements e with
       | Some l => flat_map nodes l
       | None => []
       end.

(** The shortcuts at or below [p]. *)
Fixpoint shortcuts_in (p : normalized) : list shortcut :=
  match p with
  | Shortcut s => [s]
  | Group _ _ _ d => flat_map (fun item => shortcuts_in (snd item)) d
  end.

Definition dict_shortcuts (d : dict normalized) : list shortcut :=
  flat_map (fun item => shortcuts_in (snd item)) d.

Definition category_all_shortcuts (c : category) : list shortcut :=
  dict_shortcuts (get (category_shortcuts c) [])
  ++ dict_shortcuts (get (category_subgroups c) []).

Definition tree_shortcuts (tree : dict category) : list shortcut :=
  flat_map (fun item => category_all_shortcuts (snd item)) tree.

(** The node [e] is where the shortcut [s] comes from: it carries the
    hotkey identifier, it has a name, it is not display-only, and [s] is
    the dictionary built from its fields. *)
Definition source_of (s : shortcut) (e : rawnode) : Prop :=
  sybmolichotkey e = Some (id s)
  /\ s = shortcut_of e (id s)
  /\ get (name e) "" <> ""
  /\ get (node_class e) "" <> "DisplayOnlyNode".

(** *** The order of the categories *)

(** The categories that the loop of [main] stores, in the order of the
    table. *)
Definition emitted (data : list rawnode) : list category :=
  flat_map
    (fun node =>
       match parse_category node with
       | Some c => if String.eqb (category_nixName c) "" then [] else [c]
       | None => []
       end)
    data.

(** The elements of [l], each at the place where it occurs first. *)
Definition first_occurrences (l : list string) : list string :=
  fold_left
    (fun seen k => if existsb (String.eqb k) seen then seen else seen ++ [k])
    l [].

(** The last element of [l] that satisfies [p]. *)
Definition find_last {A : Type} (p : A -> bool) (l : list A) : option A :=
  find p (rev l).

(** *** The marks of the dynamic shortcuts *)

(** [line] without the mark at its end, if it has one. *)
Inductive omits_mark (mark : string) : string -> string -> Prop :=
| omits_no_mark line : omits_mark mark line line
| omits_the_mark before : omits_mark mark (before ++ mark) before.

(** The tree in which no entry is dynamic. *)
Definition erase_entry_dynamic (d : entry_data) : entry_data :=
  {| entry_name := entry_name d; entry_id := entry_id d;
     entry_dynamic := false |}.

Definition erase_subgroup_dynamic (g : subgroup_data) : subgroup_data :=
  {| subgroup_name := subgroup_name g;
     subgroup_shortcuts :=
       option_map (dict_map erase_entry_dynamic) (subgroup_shortcuts g) |}.

Definition erase_cat_dynamic (c : cat_data) : cat_data :=
  {| cat_name := cat_name c;
     cat_shortcuts :=
       option_map (dict_map erase_entry_dynamic) (cat_shortcuts c);
     cat_subgroups :=
       option_map (dict_map erase_subgroup_dynamic) (cat_subgroups c) |}.

Definition erase_dynamic (data : tree_data) : tree_data :=
  {| version := version data;
     dynamicShortcuts := dynamicShortcuts data;
     categories :=
       option_map (dict_map erase_cat_dynamic) (categories data) |}.

(** The number of dynamic entries of a category and of its subgroups. *)
Definition category_dynamic (cat : cat_data) : nat :=
  (count_dynamic (get (cat_shortcuts cat) [])
   + list_sum (map (fun subgroup =>
                      count_dynamic (get (subgroup_shortcuts subgroup) []))
                   (values (get (cat_subgroups cat) []))))%nat.

(** The number of subgroups of the tree. *)
Definition subgroup_count (data : tree_data) : nat :=
  list_sum (map (fun cat => List.length (get (cat_subgroups cat) []))
                (values (get (categories data) []))).

(** Two top level nodes whose names give the same key. *)
Definition colliding_table : list rawnode :=
  [with_elements [with_hotkey 32 (named "Mission Control")]
     (with_identifier "com.apple.first" (named "Mission Control"));
   with_identifier "com.apple.other" (named "Keyboard");
   with_elements [with_hotkey 33 (named "Application windows")]
     (with_identifier "com.apple.second" (named "mission-control"))].

(** * Properties *)

(** ** Strings *)

Lemma append_nil_r (s : string) : (s ++ "")%string = s.
Proof. induction s; simpl; congruence. Qed.

Lemma append_assoc (a b c : string) :
  ((a ++ b) ++ c)%string = (a ++ (b ++ c))%string.
Proof. induction a; simpl; congruence. Qed.

Lemma length_append (a b : string) :
  String.length (a ++ b) = (String.length a + String.length b)%nat.
Proof. induction a; simpl; congruence. Qed.

Lemma cut_prefix_app (p s : string) : cut_prefix p (p ++ s) = Some s.
Proof.
  induction p as [|a p IH]; simpl; [reflexivity|].
  now rewrite Ascii.eqb_refl.
Qed.

Lemma cut_prefix_spec (p s t : string) :
  cut_prefix p s = Some t <-> s = (p ++ t)%string.
Proof.
  split.
  - revert s; induction p as [|a p IH]; simpl; intros s H.
    + congruence.
    + destruct s as [|b s]; [discriminate|].
      destruct (Ascii.eqb_spec a b) as [->|]; [|discriminate].
      f_equal. now apply IH.
  - intros ->. apply cut_prefix_app.
Qed.

Lemma startswith_cut_prefix (p s : string) :
  Str.startswith s p
  = match cut_prefix p s with Some _ => true | None => false end.
Proof.
  revert s; induction p as [|a p IH]; intros [|b s]; simpl; try reflexivity.
  destruct (Ascii.eqb a b); [apply IH|reflexivity].
Qed.

Lemma lspace_lstrip (s : string) : s = (Str.lspace s ++ Str.lstrip s)%string.
Proof.
  induction s as [|c s IH]; simpl; [reflexivity|].
  destruct (Str.is_space c); simpl; congruence.
Qed.

Lemma lstrip_head (c : ascii) (s : string) :
  Str.is_space c = false -> Str.lstrip (String c s) = String c s.
Proof. intros H; simpl; now rewrite H. Qed.

Lemma last_app (x y : string) :
  Str.last (x ++ y) =
  match Str.last y with Some c => Some c | None => Str.last x end.
Proof.
  induction x as [|c x IH]; simpl.
  - now destruct (Str.last y).
  - rewrite IH. destruct (Str.last y); [reflexivity|].
    reflexivity.
Qed.

Lemma cut_suffix_refl (a : string) : cut_suffix a a = Some "".
Proof. destruct a; simpl; now rewrite ?Ascii.eqb_refl, ?String.eqb_refl. Qed.

Lemma cut_suffix_app (b a : string) : cut_suffix a (b ++ a) = Some b.
Proof.
  induction b as [|c b IH]; simpl append.
  - apply cut_suffix_refl.
  - cbn [cut_suffix]. rewrite IH.
    destruct (String.eqb_spec (String c (b ++ a)) a) as [E|_]; [|reflexivity].
    apply (f_equal String.length) in E. simpl in E.
    rewrite length_append in E. lia.
Qed.

Lemma cut_suffix_spec (a s b : string) :
  cut_suffix a s = Some b <-> s = (b ++ a)%string.
Proof.
  split; [|intros ->; apply cut_suffix_app].
  revert b; induction s as [|c s IH]; intros b; cbn [cut_suffix].
  - destruct (String.eqb_spec "" a) as [<-|_]; [|discriminate].
    now intros [= <-].
  - destruct (String.eqb_spec (String c s) a) as [<-|_].
    + now intros [= <-].
    + destruct (cut_suffix a s) as [b'|]; [|discriminate].
      intros [= <-]. simpl. f_equal. now apply IH.
Qed.

Lemma rstrip_lspace (s : string) : rstrip (Str.lspace s) = "".
Proof.
  induction s as [|c s IH]; simpl; [reflexivity|].
  destruct (Str.is_space c) eqn:E; simpl; [|reflexivity].
  now rewrite IH, E.
Qed.

(** A string whose [rstrip] is empty is white space only. *)
Lemma rstrip_empty (s : string) : rstrip s = "" -> Str.lstrip s = "".
Proof.
  induction s as [|c s IH]; simpl; [reflexivity|].
  destruct (rstrip s); [|discriminate].
  destruct (Str.is_space c); [auto|discriminate].
Qed.

Lemma lstrip_app_space (s t : string) :
  Str.lstrip s = "" -> Str.lstrip (s ++ t) = Str.lstrip t.
Proof.
  induction s as [|c s IH]; simpl; [reflexivity|].
  destruct (Str.is_space c); [auto|discriminate].
Qed.

(** ** The matcher on the patterns of the scripts *)

Lemma option_map_add0 (o : option nat) : option_map (Nat.add 0) o = o.
Proof. now destruct o. Qed.

Lemma match_lits (a : string) (r : Re.regex) (bos : bool) (s : string) :
  Re.match_here (Re.lits a ++ r) bos s =
  match cut_prefix a s with
  | Some t =>
      option_map (Nat.add (String.length a))
        (Re.match_here r (match a with EmptyString => bos | _ => false end) t)
  | None => None
  end.
Proof.
  revert bos s; induction a as [|c a IH]; intros bos s.
  - simpl. now rewrite option_map_add0.
  - destruct s as [|d s]; [reflexivity|].
    cbn [Re.lits app Re.match_here cut_prefix].
    destruct (Ascii.eqb c d); [|reflexivity].
    rewrite IH. destruct (cut_prefix a s) as [t|]; [|reflexivity].
    replace (match a with EmptyString => false | String _ _ => false end)
      with false by now destruct a.
    destruct (Re.match_here r false t); reflexivity.
Qed.

(** A starred class at the end of a pattern takes the whole run. *)
Lemma star_greedy (bos : bool) (s : string) :
  Re.match_here [Re.Star Str.is_space] bos s
  = Some (String.length (Str.lspace s)).
Proof.
  cbn [Re.match_here].
  revert bos; induction s as [|c s IH]; intros bos; simpl; [reflexivity|].
  destruct (Str.is_space c); [|reflexivity].
  now rewrite IH.
Qed.

(** After a match, the search goes on behind it. *)
Lemma sub_from_skip (r : Re.regex) (repl m t : string) :
  Re.sub_from r repl false (String.length m) (m ++ t)
  = Re.sub_from r repl false 0 t.
Proof.
  induction m as [|c m IH]; [reflexivity|].
  simpl String.length. simpl append. cbn [Re.sub_from]. exact IH.
Qed.

Lemma sub_from_match (r : Re.regex) (repl : string) (bos : bool)
    (c : ascii) (m t : string) :
  Re.match_here r bos (String c m ++ t) = Some (String.length (String c m)) ->
  Re.sub_from r repl bos 0 (String c m ++ t)
  = (repl ++ Re.sub_from r repl false 0 t)%string.
Proof.
  change (String c m ++ t)%string with (String c (m ++ t)) in *.
  intros H. cbn [Re.sub_from]. rewrite H. simpl String.length. cbv iota.
  now rewrite sub_from_skip.
Qed.

Lemma sub_from_nomatch (r : Re.regex) (repl : string) (bos : bool)
    (c : ascii) (s : string) :
  Re.match_here r bos (String c s) = None ->
  Re.sub_from r repl bos 0 (String c s)
  = String c (Re.sub_from r repl false 0 s).
Proof. intros H. cbn [Re.sub_from]. now rewrite H. Qed.

(** A pattern anchored with [^] matches nowhere but at the beginning. *)
Lemma sub_from_bol (r : Re.regex) (repl s : string) :
  Re.sub_from (Re.Bol :: r) repl false 0 s = s.
Proof.
  induction s as [|c s IH]; [reflexivity|].
  rewrite sub_from_nomatch by reflexivity. now rewrite IH.
Qed.

(** [clean_name] takes the marker and the white space after it off the
    head of the name, once. *)
Lemma clean_name_eq (s : string) :
  clean_name s =
  match cut_prefix "DO_NOT_LOCALIZE:" s with
  | Some t => Str.lstrip t
  | None => s
  end.
Proof.
  unfold clean_name, Re.sub, re_do_not_localize.
  destruct (cut_prefix "DO_NOT_LOCALIZE:" s) as [t|] eqn:E.
  - apply cut_prefix_spec in E. subst s.
    rewrite (lspace_lstrip t) at 1.
    rewrite <- append_assoc.
    set (m := ("DO_NOT_LOCALIZE:" ++ Str.lspace t)%string).
    assert (Hm : exists c m', m = String c m') by (eexists; eexists; reflexivity).
    destruct Hm as (c & m' & Hm). rewrite Hm.
    rewrite sub_from_match.
    + now rewrite sub_from_bol.
    + rewrite <- Hm. unfold m.
      cbn [Re.match_here]. rewrite match_lits.
      rewrite append_assoc, cut_prefix_app.
      rewrite <- lspace_lstrip, star_greedy, length_append. reflexivity.
  - destruct s as [|c s]; [reflexivity|].
    rewrite sub_from_nomatch.
    + now rewrite sub_from_bol.
    + cbn [Re.match_here]. rewrite match_lits. now rewrite E.
Qed.

(** A one character class: every character is looked at on its own. *)
Lemma sub_from_cls_delete (p : ascii -> bool) (bos : bool) (s : string) :
  Re.sub_from [Re.Cls p] "" bos 0 s = Str.filter (fun c => negb (p c)) s.
Proof.
  revert bos; induction s as [|c s IH]; intros bos; [reflexivity|].
  cbn [Re.sub_from Re.match_here Str.filter].
  destruct (p c); simpl; now rewrite IH.
Qed.

Lemma sub_from_cls_space (p : ascii -> bool) (bos : bool) (s : string) :
  Re.sub_from [Re.Cls p] " " bos 0 s
  = Str.map (fun c => if p c then " "%char else c) s.
Proof.
  revert bos; induction s as [|c s IH]; intros bos; [reflexivity|].
  cbn [Re.sub_from Re.match_here Str.map].
  destruct (p c); simpl; now rewrite IH.
Qed.

Lemma filter_ext (p q : ascii -> bool) (s : string) :
  (forall c, p c = q c) -> Str.filter p s = Str.filter q s.
Proof.
  intros H; induction s as [|c s IH]; simpl; [reflexivity|].
  now rewrite H, IH.
Qed.

(** The greedy star before a continuation [k] that fails on white space:
    nothing that the star gives back helps, so the run is taken whole. *)
Lemma star_here_run (k : bool -> string -> option nat)
    (K : string -> option nat) :
  (forall b t, k b t = K t) ->
  (forall c t, Str.is_space c = true -> K (String c t) = None) ->
  forall bos s,
    Re.star_here Str.is_space k bos s
    = option_map (Nat.add (String.length (Str.lspace s))) (K (Str.lstrip s)).
Proof.
  intros Hk Hsp bos s.
  revert bos; induction s as [|c s IH]; intros bos.
  - simpl. now rewrite Hk, option_map_add0.
  - cbn [Re.star_here Str.lstrip Str.lspace].
    destruct (Str.is_space c) eqn:E.
    + rewrite IH. destruct (K (Str.lstrip s)) as [n|]; simpl.
      * reflexivity.
      * rewrite Hk. now apply Hsp.
    + rewrite Hk. simpl. now rewrite option_map_add0.
Qed.

(** *** The two annotation patterns

    [a] is the annotation in its parentheses: it begins with a character
    that is not white space and does not end with a newline. *)

Section Annotation.

Variables (c0 : ascii) (a' : string).
Let a : string := String c0 a'.
Hypothesis head_not_space : Str.is_space c0 = false.
Hypothesis last_not_newline :
  match Str.last a with
  | Some c => negb (Ascii.eqb c Str.newline)
  | None => false
  end = true.

Let pattern : Re.regex := Re.Star Str.is_space :: Re.lits a ++ [Re.Eol].

Lemma tail_match_bos (bos : bool) (t : string) :
  Re.match_here (Re.lits a ++ [Re.Eol]) bos t = tail_match a t.
Proof.
  unfold tail_match. rewrite !match_lits.
  destruct (cut_prefix a t); reflexivity.
Qed.

Lemma tail_match_cases (t : string) :
  (t = a /\ tail_match a t = Some (String.length a))
  \/ (t = (a ++ nl)%string /\ tail_match a t = Some (String.length a))
  \/ (t <> a /\ t <> (a ++ nl)%string /\ tail_match a t = None).
Proof.
  unfold tail_match. rewrite match_lits.
  destruct (cut_prefix a t) as [u|] eqn:E.
  - apply cut_prefix_spec in E. subst t.
    destruct u as [|d u].
    + left. rewrite append_nil_r. split; [reflexivity|].
      simpl. now rewrite Nat.add_0_r.
    + destruct u as [|e u].
      * cbn [Re.match_here Re.at_eol].
        destruct (Ascii.eqb_spec d Str.newline) as [->|n].
        -- right; left. split; [reflexivity|]. simpl. now rewrite Nat.add_0_r.
        -- right; right. repeat split; try reflexivity.
           ++ intros H. rewrite <- (append_nil_r a) in H at 2.
              apply (f_equal (cut_prefix a)) in H.
              rewrite !cut_prefix_app in H. discriminate.
           ++ intros H. apply (f_equal (cut_prefix a)) in H.
              rewrite !cut_prefix_app in H. unfold nl in H. congruence.
      * right; right. repeat split; try reflexivity.
        -- intros H. rewrite <- (append_nil_r a) in H at 2.
           apply (f_equal (cut_prefix a)) in H.
           rewrite !cut_prefix_app in H. discriminate.
        -- intros H. apply (f_equal (cut_prefix a)) in H.
           rewrite !cut_prefix_app in H. discriminate.
  - right; right. repeat split; try reflexivity.
    + intros ->. rewrite <- (append_nil_r a) in E at 2.
      rewrite cut_prefix_app in E. discriminate.
    + intros ->. rewrite cut_prefix_app in E. discriminate.
Qed.

Lemma tail_match_space (c : ascii) (t : string) :
  Str.is_space c = true -> tail_match a (String c t) = None.
Proof.
  intros H. unfold tail_match, a. cbn [Re.lits app Re.match_here].
  destruct (Ascii.eqb_spec c0 c) as [->|_]; [congruence|reflexivity].
Qed.

(** The pattern matches at the head of [s] when the annotation follows
    the run of white space there. *)
Lemma match_annotation (bos : bool) (s : string) :
  Re.match_here pattern bos s =
  option_map (Nat.add (String.length (Str.lspace s)))
             (tail_match a (Str.lstrip s)).
Proof.
  unfold pattern.
  change (Re.match_here (Re.Star Str.is_space :: Re.lits a ++ [Re.Eol]) bos s)
    with (Re.star_here Str.is_space
            (Re.match_here (Re.lits a ++ [Re.Eol])) bos s).
  apply star_here_run.
  - apply tail_match_bos.
  - apply tail_match_space.
Qed.

Lemma lstrip_a : Str.lstrip a = a.
Proof. unfold a. now apply lstrip_head. Qed.

Lemma no_tail_at_end : tail_match a "" = None.
Proof. reflexivity. Qed.

Lemma not_both_ends (b b' : string) :
  (b ++ a)%string <> (b' ++ a ++ nl)%string.
Proof.
  intros H. apply (f_equal Str.last) in H.
  rewrite <- append_assoc in H. rewrite !last_app in H.
  destruct (Str.last a) as [c|]; [|discriminate last_not_newline].
  simpl in H. injection H as ->.
  now rewrite Ascii.eqb_refl in last_not_newline.
Qed.

Lemma rstrip_cons (c : ascii) (b : string) :
  Str.lstrip (String c b) <> "" -> rstrip (String c b) = String c (rstrip b).
Proof.
  intros H. cbn [rstrip]. destruct (rstrip b) eqn:R; [|reflexivity].
  apply rstrip_empty in R. simpl in H.
  destruct (Str.is_space c); [contradiction|reflexivity].
Qed.

Lemma lstrip_body (b u : string) :
  Str.lstrip (b ++ a ++ u) <> (a ++ u)%string -> Str.lstrip b <> "".
Proof.
  intros H E. apply H. rewrite lstrip_app_space by exact E.
  unfold a. simpl. now rewrite head_not_space.
Qed.

Lemma strip_annotation_cons (c : ascii) (s : string) :
  Str.lstrip (String c s) <> a ->
  Str.lstrip (String c s) <> (a ++ nl)%string ->
  strip_annotation a (String c s) = String c (strip_annotation a s).
Proof.
  intros H1 H2. unfold strip_annotation. cbn [cut_suffix].
  destruct (String.eqb_spec (String c s) a) as [E|_].
  { exfalso. apply H1. rewrite E. apply lstrip_a. }
  destruct (String.eqb_spec (String c s) (a ++ nl)) as [E|_].
  { exfalso. apply H2. rewrite E. unfold a. simpl. now rewrite head_not_space. }
  destruct (cut_suffix a s) as [b|] eqn:Ea; cbn [option_map].
  - apply cut_suffix_spec in Ea. subst s.
    apply rstrip_cons.
    apply (lstrip_body (String c b) "").
    now rewrite !append_nil_r.
  - destruct (cut_suffix (a ++ nl) s) as [b|] eqn:En; cbn [option_map];
      [|reflexivity].
    apply cut_suffix_spec in En. subst s.
    rewrite rstrip_cons; [reflexivity|].
    now apply (lstrip_body (String c b) nl).
Qed.

Lemma sub_annotation_nl : Re.sub_from pattern "" false 0 nl = nl.
Proof.
  unfold nl. rewrite sub_from_nomatch by now rewrite match_annotation.
  cbn [Re.sub_from]. now rewrite match_annotation.
Qed.

(** [re.sub] with an annotation pattern and the empty replacement is
    [strip_annotation]. *)
Lemma sub_annotation (bos : bool) (s : string) :
  Re.sub_from pattern "" bos 0 s = strip_annotation a s.
Proof.
  revert bos; induction s as [|c s IH]; intros bos; [reflexivity|].
  destruct (tail_match_cases (Str.lstrip (String c s))) as
    [[E M]|[[E M]|(N1 & N2 & M)]].
  - assert (Hs : String c s = ((Str.lspace (String c s) ++ a) ++ "")%string).
    { rewrite append_nil_r, <- E. apply lspace_lstrip. }
    destruct (Str.lspace (String c s) ++ a)%string as [|d m] eqn:Em.
    { destruct (Str.lspace (String c s)); discriminate Em. }
    rewrite Hs, sub_from_match.
    + rewrite <- Em, !append_nil_r. unfold strip_annotation.
      rewrite cut_suffix_app. now rewrite rstrip_lspace.
    + rewrite <- Hs, match_annotation, M, <- Em, length_append. reflexivity.
  - assert (Hs : String c s = ((Str.lspace (String c s) ++ a) ++ nl)%string).
    { rewrite append_assoc, <- E. apply lspace_lstrip. }
    destruct (Str.lspace (String c s) ++ a)%string as [|d m] eqn:Em.
    { destruct (Str.lspace (String c s)); discriminate Em. }
    rewrite Hs, sub_from_match.
    + rewrite <- Em. unfold strip_annotation.
      destruct (cut_suffix a ((Str.lspace (String c s) ++ a) ++ nl)) as [b|] eqn:Ea.
      { apply cut_suffix_spec in Ea. rewrite append_assoc in Ea.
        symmetry in Ea. now apply not_both_ends in Ea. }
      rewrite append_assoc, cut_suffix_app, rstrip_lspace, sub_annotation_nl.
      reflexivity.
    + rewrite <- Hs, match_annotation, M, <- Em, length_append. reflexivity.
  - rewrite sub_from_nomatch by now rewrite match_annotation, M.
    rewrite IH. symmetry. now apply strip_annotation_cons.
Qed.

End Annotation.

Lemma sub_ax_description (s : string) :
  Re.sub re_ax_description "" s = strip_annotation "(AX_DESCRIPTION)" s.
Proof. apply (sub_annotation "("%char "AX_DESCRIPTION)"); reflexivity. Qed.

Lemma sub_window_management (s : string) :
  Re.sub re_window_management "" s
  = strip_annotation "(window management)" s.
Proof. apply (sub_annotation "("%char "window management)"); reflexivity. Qed.

(** ** Key synthesis and name cleaning *)

Lemma concat_empty_cons (x : string) (l : list string) :
  String.concat "" (x :: l) = (x ++ String.concat "" l)%string.
Proof. destruct l; simpl; [now rewrite append_nil_r|reflexivity]. Qed.

(** The loop [result += word.capitalize()]. *)
Lemma fold_left_append (f : string -> string) (l : list string)
    (init : string) :
  fold_left (fun result word => (result ++ f word)%string) l init
  = String.concat "" (init :: map f l).
Proof.
  revert init; induction l as [|w l IH]; intros init; simpl fold_left.
  - simpl. reflexivity.
  - rewrite IH. cbn [map]. rewrite !concat_empty_cons.
    now rewrite append_assoc.
Qed.

Lemma length_lstrip (s : string) :
  (String.length (Str.lstrip s) <= String.length s)%nat.
Proof.
  induction s as [|c s IH]; simpl; [lia|].
  destruct (Str.is_space c); simpl; lia.
Qed.

Example to_camel_case_samples :
  to_camel_case "DO_NOT_LOCALIZE: Turn Do Not Disturb On/Off"
  = "turnDoNotDisturbOnOff"
  /\ to_camel_case "Zoom (AX_DESCRIPTION)" = "zoom"
  /\ to_camel_case "Fill (window management)" = "fill"
  /\ to_camel_case "Move focus to the window toolbar"
     = "moveFocusToTheWindowToolbar"
  /\ to_camel_case "Save picture of screen as a file"
     = "savePictureOfScreenAsAFile"
  /\ to_camel_case "" = ""
  /\ to_camel_case "-- / --" = "".
Proof. repeat split; vm_compute; reflexivity. Qed.




(** C2, as the code has it.  One application of [clean_name] removes one
    marker, so a second application changes the name exactly when the
    cleaned name begins with the marker again. *)
Theorem clean_name_idempotent_iff (s : string) :
  clean_name (clean_name s) = clean_name s
  <-> has_marker (clean_name s) = false.
Proof.
  generalize (clean_name s) as t. intros t.
  unfold has_marker. rewrite startswith_cut_prefix, clean_name_eq.
  destruct (cut_prefix "DO_NOT_LOCALIZE:" t) as [u|] eqn:E.
  - apply cut_prefix_spec in E. split; [|discriminate].
    intros H. apply (f_equal String.length) in H.
    rewrite E, length_append in H.
    pose proof (length_lstrip u). simpl in H. lia.
  - split; reflexivity.
Qed.

Lemma clean_name_idempotent_witness :
  clean_name (clean_name "DO_NOT_LOCALIZE: Zoom")
  = clean_name "DO_NOT_LOCALIZE: Zoom".
Proof.
  apply (proj2 (clean_name_idempotent_iff "DO_NOT_LOCALIZE: Zoom")).
  reflexivity.
Defined.

(** C2 fails as it is worded: a name that carries the marker twice loses
    one at each application. *)
Lemma clean_name_not_idempotent :
  clean_name (clean_name "DO_NOT_LOCALIZE: DO_NOT_LOCALIZE: Zoom")
  <> clean_name "DO_NOT_LOCALIZE: DO_NOT_LOCALIZE: Zoom".
Proof. vm_compute. discriminate. Qed.

(** ** The walk over the raw table *)

Lemma parse_shortcut_element_eq (element : rawnode) :
  parse_shortcut_element element =
  if String.eqb (get (name element) "") "" then None
  else if String.eqb (get (node_class element) "") "DisplayOnlyNode" then None
  else
    match sybmolichotkey element with
    | None =>
        match get (elements element) [] with
        | [] => None
        | _ :: _ => parse_group element
        end
    | Some hotkey_id => Some (Shortcut (shortcut_of element hotkey_id))
    end.
Proof. destruct element; reflexivity. Qed.

Lemma parse_group_eq (group : rawnode) :
  parse_group group =
  if String.eqb (get (name group) "") "" then None
  else group_result group
         (fold_left (group_step parse_shortcut_element)
                    (get (elements group) []) []).
Proof.
  unfold parse_group, parse_group_with.
  destruct (String.eqb _ ""); [reflexivity|].
  destruct (elements group) as [[|e l]|]; reflexivity.
Qed.

Lemma parse_category_eq (node : rawnode) :
  parse_category node =
  if String.eqb (get (name node) "") ""
     || String.eqb (get (identifier node) "") "" then None
  else Some (category_result node
               (fold_left category_step (get (elements node) []) ([], []))).
Proof. reflexivity. Qed.

Lemma parse_group_with_elements (l : list rawnode) (group : rawnode) :
  parse_group (with_elements l group) =
  if String.eqb (get (name group) "") "" then None
  else group_result group
         (fold_left (group_step parse_shortcut_element) l []).
Proof. now rewrite parse_group_eq. Qed.

Lemma parse_category_with_elements (l : list rawnode) (node : rawnode) :
  parse_category (with_elements l node) =
  if String.eqb (get (name node) "") ""
     || String.eqb (get (identifier node) "") "" then None
  else Some (category_result node (fold_left category_step l ([], []))).
Proof. reflexivity. Qed.

(** A loop does not see an element whose step leaves the state as it
    is. *)
Lemma fold_left_skip {A B : Type} (f : A -> B -> A) (pre post : list B)
    (b : B) (init : A) :
  (forall a, f a b = a) ->
  fold_left f (pre ++ b :: post) init = fold_left f (pre ++ post) init.
Proof. intros H. rewrite !fold_left_app. simpl. now rewrite H. Qed.

(** C3, as the code has it.  A display-only node that goes through
    [parse_shortcut_element] is discarded: it is so for every child in
    group parsing, and for the children of a category that have a hotkey
    identifier or no ['elements']; the table without the node gives the
    same group and the same category.  (A child of a category with
    ['elements'] and without hotkey identifier goes to [parse_group],
    which does not read the class.) *)
Theorem display_only_discarded (element : rawnode) :
  node_class element = Some "DisplayOnlyNode" ->
  parse_shortcut_element element = None
  /\ (forall group pre post,
         parse_group (with_elements (pre ++ element :: post) group)
         = parse_group (with_elements (pre ++ post) group))
  /\ (is_subgroup element = false ->
      forall node pre post,
        parse_category (with_elements (pre ++ element :: post) node)
        = parse_category (with_elements (pre ++ post) node)).
Proof.
  intros H.
  assert (P : parse_shortcut_element element = None).
  { rewrite parse_shortcut_element_eq, H. simpl.
    now destruct (String.eqb _ ""). }
  split; [exact P|split].
  - intros group pre post. rewrite !parse_group_with_elements.
    rewrite fold_left_skip; [reflexivity|].
    intros a. unfold group_step. now rewrite P.
  - intros S node pre post. rewrite !parse_category_with_elements.
    rewrite fold_left_skip; [reflexivity|].
    intros a. unfold category_step. now rewrite S, P.
Qed.

Lemma display_only_discarded_witness :
  node_class heading = Some "DisplayOnlyNode"
  /\ parse_shortcut_element heading = None
  /\ (forall group pre post,
         parse_group (with_elements (pre ++ heading :: post) group)
         = parse_group (with_elements (pre ++ post) group))
  /\ (is_subgroup heading = false ->
      forall node pre post,
        parse_category (with_elements (pre ++ heading :: post) node)
        = parse_category (with_elements (pre ++ post) node)).
Proof.
  split; [reflexivity|].
  apply (display_only_discarded heading). reflexivity.
Defined.

(** C3 fails as it is worded: a display-only child of a category that has
    children of its own and no hotkey identifier becomes a subgroup. *)
Lemma display_only_subgroup_kept :
  node_class display_only_child = Some "DisplayOnlyNode"
  /\ option_map category_subgroups (parse_category display_only_table)
     = Some (Some
         [("inputSources",
           Group "Input Sources" "inputSources" ""
             [("selectThePreviousInputSource",
               Shortcut
                 (shortcut_of
                    (with_hotkey 60 (named "Select the previous input source"))
                    60))])]).
Proof. split; vm_compute; reflexivity. Qed.

(** C5.  Scenario A: the category [missionControl] with its one shortcut,
    [turnDoNotDisturbOnOff]. *)
Theorem scenario_a_tree :
  build_categories [scenario_a] =
  [("missionControl",
    {| category_name := "Mission Control";
       category_nixName := "missionControl";
       category_identifier := "com.apple.symbolichotkeys.menu";
       category_shortcuts :=
         Some [("turnDoNotDisturbOnOff",
                Shortcut
                  {| id := 64;
                     shortcut_name := "Turn Do Not Disturb On/Off";
                     shortcut_nixName := "turnDoNotDisturbOnOff";
                     defaultKey := Some "d";
                     defaultModifier := Some 1048576%Z;
                     defaultCharKey := None;
                     defaultEnabled := None;
                     slowId := None;
                     shortcut_identifier := None |})];
       category_subgroups := None |})].
Proof. vm_compute. reflexivity. Qed.

(** ** Dictionaries *)

Lemma dict_get_set {V : Type} (k : string) (v : V) (d : dict V) :
  dict_get k (dict_set k v d) = Some v.
Proof.
  induction d as [|[k' v'] d IH]; simpl.
  - now rewrite String.eqb_refl.
  - destruct (String.eqb k' k) eqn:E; simpl.
    + now rewrite String.eqb_refl.
    + now rewrite E.
Qed.

Lemma keys_dict_set {V : Type} (k : string) (v : V) (d : dict V) :
  In k (keys (dict_set k v d)).
Proof.
  induction d as [|[k' v'] d IH]; simpl.
  - now left.
  - destruct (String.eqb k' k); simpl; auto.
Qed.

Lemma keys_dict_set_mono {V : Type} (k k' : string) (v : V) (d : dict V) :
  In k (keys d) -> In k (keys (dict_set k' v d)).
Proof.
  induction d as [|[k0 v0] d IH]; simpl; [tauto|].
  destruct (String.eqb_spec k0 k') as [->|_]; simpl; tauto.
Qed.

Lemma in_dict_set {V : Type} (k k' : string) (v v' : V) (d : dict V) :
  In (k, v) (dict_set k' v' d) -> (k, v) = (k', v') \/ In (k, v) d.
Proof.
  induction d as [|[k0 v0] d IH]; simpl.
  - intros [E|[]]. now left.
  - destruct (String.eqb k0 k'); simpl; intros [E|H]; auto.
    destruct (IH H); auto.
Qed.

(** What holds before a loop and is kept by its body holds after it. *)
Lemma fold_left_invariant {A B : Type} (P : A -> Prop) (f : A -> B -> A)
    (l : list B) (init : A) :
  (forall a b, P a -> P (f a b)) -> P init -> P (fold_left f l init).
Proof.
  intros H; revert init; induction l as [|b l IH]; simpl; auto.
Qed.

(** ** What the tree holds *)

(** C4.  The table [marker_group_table]: the subgroup [spaces] of the
    category [missionControl] holds, among its shortcuts and under the
    empty key, a nested group whose name is empty. *)
Theorem nested_group_with_empty_name :
  build_categories [marker_group_table] =
  [("missionControl",
    {| category_name := "Mission Control";
       category_nixName := "missionControl";
       category_identifier := "com.apple.symbolichotkeys.menu";
       category_shortcuts := None;
       category_subgroups :=
         Some [("spaces",
                Group "Spaces" "spaces" "com.apple.spaces"
                  [("",
                    Group "" "" ""
                      [("moveLeftASpace",
                        Shortcut
                          (shortcut_of
                             (with_hotkey 79 (named "Move left a space"))
                             79))])])] |})].
Proof. vm_compute. reflexivity. Qed.

Lemma main_store_keys (k : string) (parsed : option category)
    (categories : dict category) :
  In k (keys categories) -> In k (keys (main_store parsed categories)).
Proof.
  intros H. unfold main_store. destruct parsed as [p|]; [|exact H].
  destruct (String.eqb _ ""); [exact H|].
  now apply keys_dict_set_mono.
Qed.

Lemma build_categories_skip (node : rawnode) (pre post : list rawnode) :
  (forall categories, main_step categories node = categories) ->
  build_categories (pre ++ node :: post) = build_categories (pre ++ post).
Proof. intros H. unfold build_categories. now apply fold_left_skip. Qed.

Lemma nonempty_none {V : Type} (d : dict V) : nonempty d = None <-> d = [].
Proof. destruct d; simpl; split; congruence. Qed.

Lemma dict_get_set_eq {V : Type} (k k' : string) (v : V) (d : dict V) :
  dict_get k (dict_set k' v d)
  = if String.eqb k' k then Some v else dict_get k d.
Proof.
  induction d as [|[k0 v0] d IH]; simpl.
  - reflexivity.
  - destruct (String.eqb_spec k0 k') as [->|N]; simpl.
    + destruct (String.eqb k' k); reflexivity.
    + rewrite IH. destruct (String.eqb_spec k0 k) as [->|N'];
        [|reflexivity].
      destruct (String.eqb_spec k' k) as [->|]; [contradiction|reflexivity].
Qed.

(** The loop of [main] stores the categories of [emitted], one after the
    other. *)
Lemma build_categories_emitted (data : list rawnode) (init : dict category) :
  fold_left main_step data init
  = fold_left (fun d c => dict_set (category_nixName c) c d)
              (emitted data) init.
Proof.
  revert init; induction data as [|node data IH]; intros init;
    [reflexivity|].
  unfold emitted. cbn [flat_map fold_left]. rewrite fold_left_app.
  fold (emitted data). rewrite IH. f_equal.
  unfold main_step, main_store.
  destruct (parse_category node) as [c|]; [|reflexivity].
  destruct (String.eqb _ ""); reflexivity.
Qed.

(** After the loop, a key holds the last category stored under it. *)
Lemma stored_value (k : string) (l : list category) (init : dict category) :
  dict_get k (fold_left (fun d c => dict_set (category_nixName c) c d) l init)
  = match find_last (fun c => String.eqb (category_nixName c) k) l with
    | Some c => Some c
    | None => dict_get k init
    end.
Proof.
  unfold find_last.
  induction l as [|c l IH] using rev_ind; [reflexivity|].
  rewrite fold_left_app, rev_app_distr. simpl.
  rewrite dict_get_set_eq. destruct (String.eqb _ k); [reflexivity|exact IH].
Qed.

(** C6, as the code has it.  A top level node without a name or without
    an identifier leaves no trace in the tree.  A node with both is parsed
    into a category, whatever its children give, with ['shortcuts'] and
    ['subgroups'] left out when empty.  When its key is not empty the
    category goes into the tree under that key, wherever the node is in
    the table: the key is in the tree, and it holds this category unless
    nodes further down the table are stored under the same key, and then
    it holds the category of the last of them.  When its key is empty the
    node leaves no trace. *)
Theorem category_emitted (node : rawnode) :
  (get (name node) "" = "" \/ get (identifier node) "" = "" ->
   parse_category node = None
   /\ forall pre post,
        build_categories (pre ++ node :: post)
        = build_categories (pre ++ post))
  /\ (get (name node) "" <> "" -> get (identifier node) "" <> "" ->
      let walk := fold_left category_step (get (elements node) []) ([], []) in
      exists c,
        parse_category node = Some c
        /\ category_name c = clean_name (get (name node) "")
        /\ category_nixName c = to_camel_case (get (name node) "")
        /\ category_identifier c = get (identifier node) ""
        /\ (category_shortcuts c = None <-> fst walk = [])
        /\ (category_subgroups c = None <-> snd walk = [])
        /\ (category_nixName c <> "" ->
            forall pre post,
              In (category_nixName c)
                 (keys (build_categories (pre ++ node :: post)))
              /\ dict_get (category_nixName c)
                          (build_categories (pre ++ node :: post))
                 = match
                     find_last
                       (fun later =>
                          String.eqb (category_nixName later)
                                     (category_nixName c))
                       (emitted post)
                   with
                   | Some later => Some later
                   | None => Some c
                   end)
        /\ (category_nixName c = "" ->
            forall pre post,
              build_categories (pre ++ node :: post)
              = build_categories (pre ++ post))).
Proof.
  split.
  - intros H.
    assert (P : parse_category node = None).
    { rewrite parse_category_eq.
      destruct H as [-> | ->]; simpl; [reflexivity|].
      now rewrite orb_true_r. }
    split; [exact P|]. intros pre post. apply build_categories_skip.
    intros categories. unfold main_step. now rewrite P.
  - intros Hn Hi walk.
    exists (category_result node walk).
    assert (P : parse_category node = Some (category_result node walk)).
    { rewrite parse_category_eq.
      apply String.eqb_neq in Hn, Hi. now rewrite Hn, Hi. }
    split; [exact P|].
    split; [reflexivity|]. split; [reflexivity|]. split; [reflexivity|].
    split; [apply nonempty_none|]. split; [apply nonempty_none|].
    split.
    + intros H pre post.
      assert (S : forall categories,
                 main_step categories node
                 = dict_set (category_nixName (category_result node walk))
                            (category_result node walk) categories).
      { intros categories. unfold main_step. rewrite P. unfold main_store.
        apply String.eqb_neq in H. now rewrite H. }
      unfold build_categories. rewrite fold_left_app. cbn [fold_left].
      rewrite S. split.
      * apply (fold_left_invariant
                 (fun categories =>
                    In (category_nixName (category_result node walk))
                       (keys categories))).
        -- intros a b. apply main_store_keys.
        -- apply keys_dict_set.
      * rewrite build_categories_emitted, stored_value.
        destruct (find_last _ (emitted post)); [reflexivity|].
        apply dict_get_set.
    + intros H pre post. apply build_categories_skip.
      intros categories. unfold main_step. rewrite P. unfold main_store.
      now rewrite H.
Qed.

(** C6 fails as it is worded: a top level node with a name and an
    identifier, and a valid shortcut below it, that is not in the tree. *)
Lemma keyless_category_absent :
  get (name keyless_category) "" <> ""
  /\ get (identifier keyless_category) "" <> ""
  /\ parse_category keyless_category <> None
  /\ build_categories [keyless_category] = [].
Proof. repeat split; vm_compute; congruence. Qed.

Lemma category_emitted_witness :
  get (name scenario_a) "" <> ""
  /\ get (identifier scenario_a) "" <> ""
  /\ exists c,
       parse_category scenario_a = Some c
       /\ category_nixName c = "missionControl"
       /\ dict_get (category_nixName c)
            (build_categories
               ([] ++ scenario_a
                   :: [with_identifier "com.apple.other" (named "Keyboard")]))
          = Some c.
Proof.
  assert (Hn : get (name scenario_a) "" <> "") by (vm_compute; discriminate).
  assert (Hi : get (identifier scenario_a) "" <> "")
    by (vm_compute; discriminate).
  split; [exact Hn|split; [exact Hi|]].
  destruct (proj2 (category_emitted scenario_a) Hn Hi)
    as (c & P & _ & K & _ & _ & _ & S & _).
  exists c. split; [exact P|]. split; [rewrite K; reflexivity|].
  assert (N : category_nixName c <> "")
    by (rewrite K; vm_compute; discriminate).
  destruct (S N []
              [with_identifier "com.apple.other" (named "Keyboard")])
    as [_ V].
  rewrite V, K. reflexivity.
Defined.

Lemma group_store_keys (k : string) (parsed : option normalized)
    (shortcuts : dict normalized) :
  In k (keys shortcuts) -> In k (keys (group_store parsed shortcuts)).
Proof.
  intros H. unfold group_store.
  destruct parsed as [[s|n k' i sh]|]; [|now apply keys_dict_set_mono|exact H].
  destruct (String.eqb _ ""); [exact H|now apply keys_dict_set_mono].
Qed.

Lemma group_store_shortcut_keys (parsed : option normalized)
    (shortcuts : dict normalized) :
  (forall k s, In (k, Shortcut s) shortcuts -> k <> "") ->
  forall k s, In (k, Shortcut s) (group_store parsed shortcuts) -> k <> "".
Proof.
  intros H k s. unfold group_store.
  destruct parsed as [[s0|n k' i sh]|]; [| |apply H].
  - destruct (String.eqb_spec (shortcut_nixName s0) "") as [|N]; [apply H|].
    intros I. apply in_dict_set in I. destruct I as [[= -> _]|I].
    + exact N.
    + now apply H in I.
  - intros I. apply in_dict_set in I. destruct I as [[=]|I].
    now apply H in I.
Qed.

(** C10.  In the mapping of a group, a shortcut is never under the empty
    key; a child that parses to a nested group is in the mapping under
    its key whatever the key is; and the group [spaces_group] has the
    empty string among its keys, for the nested group whose name is the
    marker alone. *)
Theorem nested_group_stored_unconditionally :
  (forall group g k s,
      parse_group group = Some g ->
      In (k, Shortcut s) (group_shortcuts g) -> k <> "")
  /\ (forall group elems elem n k i sh,
        get (name group) "" <> "" ->
        elements group = Some elems ->
        In elem elems ->
        parse_shortcut_element elem = Some (Group n k i sh) ->
        exists g,
          parse_group group = Some g /\ In k (keys (group_shortcuts g)))
  /\ parse_group spaces_group =
     Some (Group "Spaces" "spaces" "com.apple.spaces"
             [("",
               Group "" "" ""
                 [("moveLeftASpace",
                   Shortcut
                     (shortcut_of
                        (with_hotkey 79 (named "Move left a space")) 79))])]).
Proof.
  split; [|split].
  - intros group g k s P. rewrite parse_group_eq in P.
    destruct (String.eqb _ ""); [discriminate|].
    set (d := fold_left _ _ _) in P.
    assert (Hd : forall k s, In (k, Shortcut s) d -> k <> "").
    { apply (fold_left_invariant
               (fun d => forall k s, In (k, Shortcut s) d -> k <> "")).
      - intros a b. apply group_store_shortcut_keys.
      - intros ? ? []. }
    destruct d as [|x d]; [discriminate|].
    injection P as <-. apply Hd.
  - intros group elems elem n k i sh Hn He Hin Hp.
    rewrite parse_group_eq. apply String.eqb_neq in Hn. rewrite Hn, He.
    simpl get.
    destruct (in_split _ _ Hin) as (pre & post & ->).
    assert (Hk : In k (keys (fold_left (group_step parse_shortcut_element)
                                       (pre ++ elem :: post) []))).
    { rewrite fold_left_app. simpl.
      apply fold_left_invariant.
      - intros a b. apply group_store_keys.
      - unfold group_step at 1. rewrite Hp. apply keys_dict_set. }
    destruct (fold_left _ _ _) as [|x d]; [destruct Hk|].
    eexists. split; [reflexivity|exact Hk].
  - vm_compute. reflexivity.
Qed.

(** ** The reports *)

(** A loop that appends one line for each item. *)
Lemma fold_left_append_line {A : Type} (line : A -> string) (l : list A)
    (lines : list string) :
  fold_left (fun lines item => lines ++ [line item]) l lines
  = lines ++ map line l.
Proof.
  revert lines; induction l as [|x l IH]; intros lines; simpl.
  - now rewrite app_nil_r.
  - rewrite IH, <- app_assoc. reflexivity.
Qed.

(** A loop that appends some lines for each item. *)
Lemma fold_left_append_lines {A : Type} (f : list string -> A -> list string)
    (g : A -> list string) (l : list A) (lines : list string) :
  (forall lines x, f lines x = lines ++ g x) ->
  fold_left f l lines = lines ++ flat_map g l.
Proof.
  intros H. revert lines; induction l as [|x l IH]; intros lines; simpl.
  - now rewrite app_nil_r.
  - rewrite IH, H, <- app_assoc. reflexivity.
Qed.

Section Lines.

Variables include_ids include_dynamic : bool.

Lemma text_subgroup_eq (lines : list string) (item : string * subgroup_data) :
  text_subgroup include_ids include_dynamic lines item
  = lines ++ text_subgroup_lines include_ids include_dynamic item.
Proof.
  unfold text_subgroup, text_subgroup_lines, text_entry.
  rewrite fold_left_append_line, <- app_assoc. reflexivity.
Qed.

Lemma text_category_eq (lines : list string) (item : string * cat_data) :
  text_category include_ids include_dynamic lines item
  = lines ++ text_category_lines include_ids include_dynamic item.
Proof.
  unfold text_category, text_category_lines, text_entry.
  rewrite (fold_left_append_lines _ _ _ _ text_subgroup_eq).
  rewrite fold_left_append_line, <- !app_assoc. reflexivity.
Qed.

Lemma text_lines_eq (data : tree_data) :
  text_lines include_ids include_dynamic data
  = "`darwin.symbolicHotkeys`"
    :: flat_map (text_category_lines include_ids include_dynamic)
                (get (categories data) []).
Proof.
  unfold text_lines.
  now rewrite (fold_left_append_lines _ _ _ _ text_category_eq).
Qed.

Lemma markdown_subgroup_eq (lines : list string)
    (item : string * subgroup_data) :
  markdown_subgroup include_ids include_dynamic lines item
  = lines ++ markdown_subgroup_lines include_ids include_dynamic item.
Proof.
  unfold markdown_subgroup, markdown_subgroup_lines, markdown_entry.
  rewrite fold_left_append_line, <- app_assoc. reflexivity.
Qed.

Lemma markdown_category_eq (lines : list string) (item : string * cat_data) :
  markdown_category include_ids include_dynamic lines item
  = lines ++ markdown_category_lines include_ids include_dynamic item.
Proof.
  unfold markdown_category, markdown_category_lines, markdown_entry.
  rewrite (fold_left_append_lines _ _ _ _ markdown_subgroup_eq).
  rewrite fold_left_append_line, <- !app_assoc. reflexivity.
Qed.

Lemma markdown_lines_eq (data : tree_data) :
  markdown_lines include_ids include_dynamic data
  = markdown_header data
    ++ flat_map (markdown_category_lines include_ids include_dynamic)
                (get (categories data) [])
    ++ markdown_statistics data.
Proof.
  unfold markdown_lines.
  rewrite (fold_left_append_lines _ _ _ _ markdown_category_eq).
  now rewrite <- app_assoc.
Qed.

End Lines.

(** *** The statistics *)

Lemma stats_subgroup_total (l : list subgroup_data) (acc : nat * nat) :
  fst (fold_left stats_subgroup l acc)
  = (fst acc
     + list_sum (map (fun subgroup =>
                        List.length (get (subgroup_shortcuts subgroup) []))
                     l))%nat.
Proof.
  revert acc; induction l as [|g l IH]; intros [t d]; simpl.
  - lia.
  - rewrite IH. simpl. lia.
Qed.

Lemma stats_category_total (acc : nat * nat) (cat : cat_data) :
  fst (stats_category acc cat) = (fst acc + category_entries cat)%nat.
Proof.
  destruct acc as [t d]. unfold stats_category, category_entries.
  rewrite stats_subgroup_total. simpl. lia.
Qed.

Lemma statistics_total (l : list cat_data) (acc : nat * nat) :
  fst (fold_left stats_category l acc)
  = (fst acc + list_sum (map category_entries l))%nat.
Proof.
  revert acc; induction l as [|c l IH]; intros acc; simpl.
  - lia.
  - rewrite IH, stats_category_total. lia.
Qed.

(** *** The entry lines of the report *)

Lemma count_app (p : string -> bool) (l1 l2 : list string) :
  List.length (filter p (l1 ++ l2))
  = (List.length (filter p l1) + List.length (filter p l2))%nat.
Proof. now rewrite filter_app, length_app. Qed.

Lemma count_flat_map {A : Type} (p : string -> bool)
    (f : A -> list string) (n : A -> nat) (l : list A) :
  (forall x, List.length (filter p (f x)) = n x) ->
  List.length (filter p (flat_map f l)) = list_sum (map n l).
Proof.
  intros H; induction l as [|x l IH]; simpl; [reflexivity|].
  now rewrite count_app, H, IH.
Qed.

Lemma count_all {A : Type} (p : string -> bool) (f : A -> string)
    (l : list A) :
  (forall x, p (f x) = true) ->
  List.length (filter p (map f l)) = List.length l.
Proof.
  intros H; induction l as [|x l IH]; simpl; [reflexivity|].
  rewrite H. simpl. now rewrite IH.
Qed.

Section EntryLines.

Variables include_ids include_dynamic : bool.

Lemma entry_line_2 (item : string * entry_data) :
  is_entry_line (markdown_entry_line include_ids include_dynamic "  " item)
  = true.
Proof. destruct item; reflexivity. Qed.

Lemma entry_line_4 (item : string * entry_data) :
  is_entry_line (markdown_entry_line include_ids include_dynamic "    " item)
  = true.
Proof. destruct item; reflexivity. Qed.

Lemma subgroup_entry_lines (item : string * subgroup_data) :
  List.length
    (filter is_entry_line
            (markdown_subgroup_lines include_ids include_dynamic item))
  = List.length (get (subgroup_shortcuts (snd item)) []).
Proof.
  unfold markdown_subgroup_lines. cbn [filter].
  replace (is_entry_line (markdown_subgroup_line item)) with false
    by now destruct item.
  apply count_all, entry_line_4.
Qed.

Lemma category_entry_lines (item : string * cat_data) :
  List.length
    (filter is_entry_line
            (markdown_category_lines include_ids include_dynamic item))
  = category_entries (snd item).
Proof.
  unfold markdown_category_lines, category_entries. cbn [filter].
  replace (is_entry_line (markdown_category_line item)) with false
    by now destruct item.
  rewrite count_app, (count_all _ _ _ entry_line_2).
  f_equal. unfold values. rewrite map_map.
  apply count_flat_map, subgroup_entry_lines.
Qed.

Lemma header_entry_lines (data : tree_data) :
  filter is_entry_line (markdown_header data) = [].
Proof. unfold markdown_header. destruct (dynamicShortcuts data); reflexivity. Qed.

Lemma statistics_entry_lines (data : tree_data) :
  filter is_entry_line (markdown_statistics data) = [].
Proof. reflexivity. Qed.

End EntryLines.

Example text_lines_sample :
  text_lines true true sample_tree =
  ["`darwin.symbolicHotkeys`";
   "  - `missionControl` (**Mission Control**)";
   "    - `turnDoNotDisturbOnOff` - **Turn Do Not Disturb On/Off** (ID: 64)";
   "    - `spaces` (**Spaces**)";
   "      - `moveLeftASpace` - **Move left a space** (ID: 79) [dynamic]";
   "      - `nested` - **Nested**"].
Proof. vm_compute. reflexivity. Qed.

Example markdown_lines_sample :
  markdown_lines false true sample_tree =
  ["# darwin-symbolic-hotkeys Options Tree";
   "";
   "Generated from version: macOS 15.x (Sequoia)";
   "Total categories: 1";
   "";
   "## darwin.symbolicHotkeys";
   "";
   "- **missionControl** (Mission Control)";
   "  - `turnDoNotDisturbOnOff` - Turn Do Not Disturb On/Off";
   "  - **spaces** (Spaces)";
   "    - `moveLeftASpace` - Move left a space `[dynamic]`";
   "    - `nested` - Nested";
   "";
   "## Statistics";
   "";
   "- Total shortcuts: 3";
   "- Dynamic shortcuts: 1";
   "- Categories: 1"].
Proof. vm_compute. reflexivity. Qed.

(** The compact report of the tree built from the table of
    Scenario A. *)
Example text_lines_scenario_a :
  text_lines true true (tree_of (build_output [scenario_a])) =
  ["`darwin.symbolicHotkeys`";
   "  - `missionControl` (**Mission Control**)";
   "    - `turnDoNotDisturbOnOff` - **Turn Do Not Disturb On/Off** (ID: 64)"].
Proof. vm_compute. reflexivity. Qed.

(** C7.  The total of the statistics block is the sum, over the
    categories, of the sizes of the ['shortcuts'] mapping of the category
    and of those of its subgroups; the report prints it; and it is the
    number of entry lines of the report. *)
Theorem statistics_consistent (include_ids include_dynamic : bool)
    (data : tree_data) :
  total_shortcuts data
  = list_sum (map category_entries (values (get (categories data) [])))
  /\ In ("- Total shortcuts: " ++ Str.of_nat (total_shortcuts data))%string
        (markdown_lines include_ids include_dynamic data)
  /\ List.length
       (filter is_entry_line
               (markdown_lines include_ids include_dynamic data))
     = total_shortcuts data.
Proof.
  assert (T : total_shortcuts data
              = list_sum (map category_entries
                              (values (get (categories data) [])))).
  { unfold total_shortcuts, statistics. now rewrite statistics_total. }
  split; [exact T|split].
  - rewrite markdown_lines_eq. apply in_or_app; right.
    apply in_or_app; right. simpl. tauto.
  - rewrite markdown_lines_eq, !count_app.
    rewrite header_entry_lines, statistics_entry_lines, T. simpl.
    rewrite Nat.add_0_r. unfold values. rewrite map_map.
    apply count_flat_map, category_entry_lines.
Qed.

(** *** The toggle of the ids *)

Lemma omits_id_after (a x y : string) :
  omits_id x y -> omits_id (a ++ x) (a ++ y).
Proof.
  intros [line|before n after].
  - constructor.
  - rewrite <- !(append_assoc a before). constructor.
Qed.

Lemma id_str_omitted (d : entry_data) (after : string) :
  omits_id (id_str true d ++ after) (id_str false d ++ after).
Proof.
  unfold id_str. destruct (entry_id d) as [n|]; [|constructor].
  rewrite !append_assoc. apply (omits_annotation "" n after).
Qed.

Lemma Forall2_map_same {A B : Type} (R : B -> B -> Prop) (f g : A -> B)
    (l : list A) :
  (forall x, R (f x) (g x)) -> Forall2 R (map f l) (map g l).
Proof. intros H; induction l; simpl; constructor; auto. Qed.

Lemma Forall2_flat_map_same {A B : Type} (R : B -> B -> Prop)
    (f g : A -> list B) (l : list A) :
  (forall x, Forall2 R (f x) (g x)) ->
  Forall2 R (flat_map f l) (flat_map g l).
Proof.
  intros H; induction l; simpl; [constructor|].
  apply Forall2_app; auto.
Qed.

Lemma flat_map_map {A B C : Type} (f : B -> list C) (g : A -> B)
    (l : list A) :
  flat_map f (map g l) = flat_map (fun x => f (g x)) l.
Proof. induction l; simpl; congruence. Qed.

Lemma get_dict_map {V W : Type} (f : V -> W) (o : option (dict V)) :
  get (option_map (dict_map f) o) [] = dict_map f (get o []).
Proof. now destruct o. Qed.

Section Ids.

Variable include_dynamic : bool.

Lemma text_entry_omits (indent : string) (item : string * entry_data) :
  omits_id (text_entry_line true include_dynamic indent item)
           (text_entry_line false include_dynamic indent item).
Proof.
  destruct item as [k d]. unfold text_entry_line.
  do 6 apply omits_id_after. apply id_str_omitted.
Qed.

Lemma text_subgroup_omits (item : string * subgroup_data) :
  Forall2 omits_id (text_subgroup_lines true include_dynamic item)
                   (text_subgroup_lines false include_dynamic item).
Proof.
  unfold text_subgroup_lines. constructor; [constructor|].
  apply Forall2_map_same, text_entry_omits.
Qed.

Lemma text_category_omits (item : string * cat_data) :
  Forall2 omits_id (text_category_lines true include_dynamic item)
                   (text_category_lines false include_dynamic item).
Proof.
  unfold text_category_lines. constructor; [constructor|].
  apply Forall2_app.
  - apply Forall2_map_same, text_entry_omits.
  - apply Forall2_flat_map_same, text_subgroup_omits.
Qed.

Lemma text_entry_erased (indent : string) (item : string * entry_data) :
  text_entry_line true include_dynamic indent
                  (fst item, erase_entry_id (snd item))
  = text_entry_line false include_dynamic indent item.
Proof. destruct item as [k d]. reflexivity. Qed.

Lemma text_entries_erased (indent : string) (o : option (dict entry_data)) :
  map (text_entry_line true include_dynamic indent)
      (get (option_map (dict_map erase_entry_id) o) [])
  = map (text_entry_line false include_dynamic indent) (get o []).
Proof.
  rewrite get_dict_map. unfold dict_map. rewrite map_map.
  apply map_ext. intros item. apply text_entry_erased.
Qed.

Lemma text_subgroup_erased (item : string * subgroup_data) :
  text_subgroup_lines true include_dynamic
                      (fst item, erase_subgroup_ids (snd item))
  = text_subgroup_lines false include_dynamic item.
Proof.
  destruct item as [k g]. unfold text_subgroup_lines. f_equal.
  apply text_entries_erased.
Qed.

Lemma text_category_erased (item : string * cat_data) :
  text_category_lines true include_dynamic
                      (fst item, erase_cat_ids (snd item))
  = text_category_lines false include_dynamic item.
Proof.
  destruct item as [k c]. unfold text_category_lines. f_equal.
  cbn [snd erase_cat_ids cat_shortcuts cat_subgroups].
  rewrite text_entries_erased. f_equal.
  rewrite get_dict_map. unfold dict_map. rewrite flat_map_map.
  apply flat_map_ext. intros item. apply text_subgroup_erased.
Qed.

End Ids.

(** C8.  In compact mode the lines without the ids are, one for one and
    in the same order, the lines with the ids less the annotation
    [" (ID: n)"]; the two reports have the same number of lines; and the
    report without the ids is the report, with the ids, of the tree from
    which every ['id'] has been taken away. *)
Theorem ids_toggle_text (include_dynamic : bool) (data : tree_data) :
  Forall2 omits_id (text_lines true include_dynamic data)
                   (text_lines false include_dynamic data)
  /\ List.length (text_lines true include_dynamic data)
     = List.length (text_lines false include_dynamic data)
  /\ text_lines false include_dynamic data
     = text_lines true include_dynamic (erase_ids data).
Proof.
  assert (F : Forall2 omits_id (text_lines true include_dynamic data)
                               (text_lines false include_dynamic data)).
  { rewrite !text_lines_eq. constructor; [constructor|].
    apply Forall2_flat_map_same, text_category_omits. }
  split; [exact F|split].
  - exact (Forall2_length F).
  - rewrite !text_lines_eq. f_equal.
    cbn [erase_ids categories]. rewrite get_dict_map.
    unfold dict_map. rewrite flat_map_map.
    symmetry. apply flat_map_ext. intros item.
    apply text_category_erased.
Qed.

(** ** The names that are never empty

    What holds of the structural invariant: every category of the tree has
    a name and an identifier, and so has every entry of its two mappings;
    every shortcut has a name, at any depth.  A group nested in a subgroup
    is the one entry that may have an empty name. *)

(** The induction hypothesis on the children of a node, as a [Forall]. *)
Lemma list_all_Forall (P : rawnode -> Prop) (o : option (list rawnode)) :
  option_all (list rawnode) (list_all rawnode P) o -> Forall P (get o []).
Proof.
  intros [l H|]; simpl; [|constructor].
  induction H; constructor; assumption.
Qed.

Lemma key_of_empty_name (n : string) :
  clean_name n = "" -> to_camel_case n = "".
Proof.
  intros H. unfold to_camel_case. fold (clean_name n). now rewrite H.
Qed.

Lemma shortcuts_named_group (n k i : string) (d : dict normalized) :
  shortcuts_named (Group n k i d)
  <-> Forall (fun item => shortcuts_named (snd item)) d.
Proof.
  simpl. induction d as [|item d IH]; split; intros H.
  - constructor.
  - exact I.
  - destruct H as [H1 H2]. constructor; [exact H1|now apply IH].
  - inversion H; subst. split; [assumption|now apply IH].
Qed.

Lemma Forall_dict_set {V : Type} (P : string * V -> Prop) (k : string)
    (v : V) (d : dict V) :
  P (k, v) -> Forall P d -> Forall P (dict_set k v d).
Proof.
  intros Hv H; induction H as [|[k' v'] d Hx Hd IH]; simpl.
  - now repeat constructor.
  - destruct (String.eqb k' k); constructor; assumption.
Qed.

Lemma group_store_named (parsed : option normalized)
    (shortcuts : dict normalized) :
  match parsed with Some p => well_named p | None => True end ->
  Forall (fun item => shortcuts_named (snd item)) shortcuts ->
  Forall (fun item => shortcuts_named (snd item))
         (group_store parsed shortcuts).
Proof.
  intros Hp Hd. unfold group_store.
  destruct parsed as [[s|n k i sh]|]; [| |exact Hd].
  - destruct (String.eqb_spec (shortcut_nixName s) "") as [|N]; [exact Hd|].
    apply Forall_dict_set; [|exact Hd]. simpl. now apply Hp.
  - apply Forall_dict_set; [|exact Hd]. exact Hp.
Qed.

Lemma group_result_named (group : rawnode) (shortcuts : dict normalized)
    (g : normalized) :
  Forall (fun item => shortcuts_named (snd item)) shortcuts ->
  group_result group shortcuts = Some g ->
  shortcuts_named g
  /\ normalized_name g = clean_name (get (name group) "")
  /\ nixName g = to_camel_case (get (name group) "").
Proof.
  intros H. destruct shortcuts as [|x d]; [discriminate|].
  intros [= <-]. split; [|split; reflexivity].
  now apply shortcuts_named_group.
Qed.

Lemma parse_group_named (group : rawnode) (g : normalized) :
  Forall (fun e => forall p, parse_shortcut_element e = Some p -> well_named p)
         (get (elements group) []) ->
  parse_group group = Some g ->
  shortcuts_named g
  /\ normalized_name g = clean_name (get (name group) "")
  /\ nixName g = to_camel_case (get (name group) "").
Proof.
  intros H. rewrite parse_group_eq.
  destruct (String.eqb _ ""); [discriminate|].
  apply group_result_named.
  generalize (@nil (string * normalized))
             (@Forall_nil _ (fun item : string * normalized =>
                               shortcuts_named (snd item))).
  induction H as [|e l He _ IH]; intros d Hd; simpl; [exact Hd|].
  apply IH. unfold group_step. apply group_store_named; [|exact Hd].
  destruct (parse_shortcut_element e) as [p|] eqn:E; [now apply He|exact I].
Qed.

Lemma parse_shortcut_element_named (element : rawnode) (p : normalized) :
  parse_shortcut_element element = Some p -> well_named p.
Proof.
  revert p.
  induction element as [n c k sk i ky m ck en els IH] using rawnode_ind.
  apply list_all_Forall in IH.
  set (e := RawNode n c k sk i ky m ck en els) in *.
  change els with (elements e) in IH.
  intros p. rewrite parse_shortcut_element_eq.
  destruct (String.eqb _ ""); [discriminate|].
  destruct (String.eqb _ "DisplayOnlyNode"); [discriminate|].
  destruct (sybmolichotkey e) as [h|].
  - intros [= <-]. simpl. intros N E. apply N.
    now apply key_of_empty_name.
  - destruct (get (elements e) []) as [|x l] eqn:El; [discriminate|].
    rewrite <- El in IH. intros P.
    destruct (parse_group_named e p IH P) as (S & _).
    destruct p as [s|gn gk gi gd]; [|exact S].
    rewrite parse_group_eq in P.
    destruct (String.eqb _ ""); [discriminate|].
    destruct (fold_left _ _ _); discriminate.
Qed.

Lemma get_nonempty {V : Type} (d : dict V) : get (nonempty d) [] = d.
Proof. now destruct d. Qed.

Lemma name_of_key (n : string) : to_camel_case n <> "" -> clean_name n <> "".
Proof. intros H E. now apply H, key_of_empty_name. Qed.

Lemma category_step_named (acc : dict normalized * dict normalized)
    (elem : rawnode) :
  Forall entry_named (fst acc) /\ Forall entry_named (snd acc) ->
  Forall entry_named (fst (category_step acc elem))
  /\ Forall entry_named (snd (category_step acc elem)).
Proof.
  intros [H1 H2]. unfold category_step.
  destruct (is_subgroup elem).
  - unfold category_store_group.
    destruct (parse_group elem) as [p|] eqn:P; [|now split].
    destruct (String.eqb_spec (nixName p) "") as [|N]; [now split|].
    split; [exact H1|]. simpl. apply Forall_dict_set; [|exact H2].
    destruct (parse_group_named elem p) as (S & En & Ek); [|exact P|].
    + apply Forall_forall. intros x _ q. apply parse_shortcut_element_named.
    + split; [|exact S]. simpl. rewrite En. apply name_of_key.
      now rewrite <- Ek.
  - unfold category_store_shortcut.
    destruct (parse_shortcut_element elem) as [[s|gn gk gi gd]|] eqn:P;
      [|now split|now split].
    destruct (String.eqb_spec (nixName (Shortcut s)) "") as [|N];
      [now split|].
    split; [|exact H2]. simpl. apply Forall_dict_set; [|exact H1].
    apply parse_shortcut_element_named in P. simpl in P, N.
    split; simpl; now apply P.
Qed.

Lemma parse_category_named (node : rawnode) (c : category) :
  parse_category node = Some c -> category_nixName c <> "" ->
  category_named c.
Proof.
  rewrite parse_category_eq.
  destruct (String.eqb_spec (get (name node) "") "") as [|Hn];
    [discriminate|].
  destruct (String.eqb_spec (get (identifier node) "") "") as [|Hi];
    [discriminate|].
  intros [= <-] K. simpl in K.
  assert (W : Forall entry_named
                (fst (fold_left category_step (get (elements node) [])
                                ([], [])))
              /\ Forall entry_named
                   (snd (fold_left category_step (get (elements node) [])
                                   ([], [])))).
  { apply (fold_left_invariant
             (fun acc => Forall entry_named (fst acc)
                         /\ Forall entry_named (snd acc))).
    - intros a b. apply category_step_named.
    - split; constructor. }
  destruct W as [W1 W2].
  repeat split; simpl; rewrite ?get_nonempty; try assumption.
  now apply name_of_key.
Qed.

(** The structural invariant, as far as it holds of every tree. *)
Lemma tree_named (data : list rawnode) :
  Forall (fun item => category_named (snd item)) (build_categories data).
Proof.
  unfold build_categories. apply fold_left_invariant; [|constructor].
  intros d node H. unfold main_step, main_store.
  destruct (parse_category node) as [c|] eqn:P; [|exact H].
  destruct (String.eqb_spec (category_nixName c) "") as [|N]; [exact H|].
  apply Forall_dict_set; [|exact H].
  now apply (parse_category_named node).
Qed.

(** * More properties of the two scripts *)

(** ** The key of a name *)

(** [to_camel_case] without [re]. *)
Lemma to_camel_case_direct (s : string) :
  to_camel_case s
  = camel_words Str.capitalize
      (Str.map slash_dash_to_space (stripped_name s)).
Proof.
  unfold to_camel_case, stripped_name, camel_words.
  fold (clean_name s).
  rewrite sub_ax_description, sub_window_management.
  unfold Re.sub at 1, re_slash_dash. rewrite sub_from_cls_space.
  fold slash_dash_to_space.
  change (fun c => slash_dash_to_space c) with slash_dash_to_space.
  destruct (Str.split _) as [|first rest]; [reflexivity|].
  unfold Re.sub, re_non_alnum. rewrite sub_from_cls_delete.
  rewrite fold_left_append.
  apply filter_ext. intros c. now rewrite negb_involutive.
Qed.

Lemma all_chars_filter (p : ascii -> bool) (s : string) :
  all_chars p (Str.filter p s) = true.
Proof.
  induction s as [|c s IH]; simpl; [reflexivity|].
  destruct (p c) eqn:E; simpl; [now rewrite E|exact IH].
Qed.

(** X1. The key of any name is made of ASCII letters and digits only. *)
Theorem to_camel_case_alnum (s : string) :
  all_chars Str.is_alnum (to_camel_case s) = true.
Proof.
  rewrite to_camel_case_direct. unfold camel_words.
  destruct (Str.split _); [reflexivity|apply all_chars_filter].
Qed.

Lemma filter_app (p : ascii -> bool) (a b : string) :
  Str.filter p (a ++ b) = (Str.filter p a ++ Str.filter p b)%string.
Proof.
  induction a as [|c a IH]; simpl; [reflexivity|].
  destruct (p c); simpl; now rewrite IH.
Qed.

Lemma map_app (f : ascii -> ascii) (a b : string) :
  Str.map f (a ++ b) = (Str.map f a ++ Str.map f b)%string.
Proof. induction a as [|c a IH]; simpl; [reflexivity|now rewrite IH]. Qed.

Lemma lower_app (a b : string) :
  Str.lower (a ++ b) = (Str.lower a ++ Str.lower b)%string.
Proof. apply map_app. Qed.

(** The words of [s], put together again, are [s] without its white
    space. *)
Lemma concat_split_from (word s : string) :
  String.concat "" (Str.split_from word s)
  = (word ++ Str.filter (fun c => negb (Str.is_space c)) s)%string.
Proof.
  revert word; induction s as [|c s IH]; intros word; simpl.
  - destruct word; simpl; now rewrite ?append_nil_r.
  - destruct (Str.is_space c) eqn:E; simpl.
    + destruct word as [|d w].
      * apply IH.
      * rewrite concat_empty_cons, IH. reflexivity.
    + rewrite IH, append_assoc. reflexivity.
Qed.

(** The letters and digits of [s], in lower case. *)
Lemma alnum_lower_char (c : ascii) :
  Str.is_alnum (Str.lower_char c) = Str.is_alnum c
  /\ Str.is_alnum (Str.upper_char c) = Str.is_alnum c
  /\ Str.lower_char (Str.lower_char c) = Str.lower_char c
  /\ Str.lower_char (Str.upper_char c) = Str.lower_char c
  /\ (Str.is_alnum c = true -> Str.is_space c = false)
  /\ Str.is_alnum (slash_dash_to_space c) = Str.is_alnum c
  /\ (Str.is_alnum c = true -> slash_dash_to_space c = c).
Proof.
  destruct c as [[] [] [] [] [] [] [] []]; vm_compute;
    repeat split; intros; congruence.
Qed.

Lemma folded_lower (s : string) :
  Str.lower (Str.filter Str.is_alnum (Str.lower s))
  = Str.lower (Str.filter Str.is_alnum s).
Proof.
  unfold Str.lower. induction s as [|c s IH]; simpl; [reflexivity|].
  destruct (alnum_lower_char c) as (A & _ & L & _).
  rewrite A. destruct (Str.is_alnum c); simpl; now rewrite ?L, IH.
Qed.

Lemma folded_capitalize (s : string) :
  Str.lower (Str.filter Str.is_alnum (Str.capitalize s))
  = Str.lower (Str.filter Str.is_alnum s).
Proof.
  destruct s as [|c s]; [reflexivity|].
  unfold Str.capitalize. cbn [Str.filter].
  destruct (alnum_lower_char c) as (_ & A & _ & L & _).
  rewrite A. pose proof (folded_lower s) as F.
  destruct (Str.is_alnum c); [|exact F].
  unfold Str.lower in *. simpl. now rewrite L, F.
Qed.

Lemma folded_concat (f : string -> string) (l : list string) :
  (forall w, Str.lower (Str.filter Str.is_alnum (f w))
             = Str.lower (Str.filter Str.is_alnum w)) ->
  Str.lower (Str.filter Str.is_alnum (String.concat "" (map f l)))
  = Str.lower (Str.filter Str.is_alnum (String.concat "" l)).
Proof.
  intros H. induction l as [|w l IH]; [reflexivity|].
  cbn [map]. rewrite !concat_empty_cons, !filter_app, !lower_app.
  now rewrite H, IH.
Qed.

Lemma filter_alnum_nonspace (s : string) :
  Str.filter Str.is_alnum (Str.filter (fun c => negb (Str.is_space c)) s)
  = Str.filter Str.is_alnum s.
Proof.
  induction s as [|c s IH]; simpl; [reflexivity|].
  destruct (alnum_lower_char c) as (_ & _ & _ & _ & N & _).
  destruct (Str.is_space c) eqn:E; simpl.
  - destruct (Str.is_alnum c); [now specialize (N eq_refl)|exact IH].
  - now rewrite IH.
Qed.

Lemma filter_alnum_slash_dash (s : string) :
  Str.filter Str.is_alnum (Str.map slash_dash_to_space s)
  = Str.filter Str.is_alnum s.
Proof.
  induction s as [|c s IH]; simpl; [reflexivity|].
  destruct (alnum_lower_char c) as (_ & _ & _ & _ & _ & A & I).
  rewrite A. destruct (Str.is_alnum c); [|exact IH].
  now rewrite I, IH.
Qed.

Lemma lower_empty (s : string) : Str.lower s = "" <-> s = "".
Proof. unfold Str.lower. destruct s; simpl; split; intros H; congruence. Qed.

(** X2. Up to the case of the letters, the key of an ASCII name is the
    name without the marker and the annotations, less everything that is
    not a letter or a digit; so the key is empty exactly when nothing of
    the kind is left in the name. *)
Theorem to_camel_case_letters (s : string) :
  Str.is_ascii s = true ->
  Str.lower (to_camel_case s)
  = Str.lower (Str.filter Str.is_alnum (stripped_name s))
  /\ (to_camel_case s = ""
      <-> Str.filter Str.is_alnum (stripped_name s) = "").
Proof.
  intros _.
  assert (L : Str.lower (to_camel_case s)
              = Str.lower (Str.filter Str.is_alnum (stripped_name s))).
  { rewrite to_camel_case_direct. unfold camel_words.
    rewrite <- (filter_alnum_slash_dash (stripped_name s)).
    rewrite <- (filter_alnum_nonspace (Str.map _ _)).
    generalize (concat_split_from "" (Str.map slash_dash_to_space
                                               (stripped_name s))).
    fold (Str.split (Str.map slash_dash_to_space (stripped_name s))).
    simpl append. intros <-.
    destruct (Str.split _) as [|first rest]; [reflexivity|].
    rewrite !concat_empty_cons, !filter_app, !lower_app, folded_lower.
    f_equal. apply (folded_concat Str.capitalize), folded_capitalize. }
  split; [exact L|].
  rewrite <- (lower_empty (to_camel_case s)), L. apply lower_empty.
Qed.

Lemma to_camel_case_letters_witness :
  Str.is_ascii "DO_NOT_LOCALIZE: Turn VoiceOver on/off (AX_DESCRIPTION)"
  = true
  /\ Str.lower
       (to_camel_case
          "DO_NOT_LOCALIZE: Turn VoiceOver on/off (AX_DESCRIPTION)")
     = "turnvoiceoveronoff".
Proof.
  split; [reflexivity|].
  rewrite (proj1 (to_camel_case_letters
                    "DO_NOT_LOCALIZE: Turn VoiceOver on/off (AX_DESCRIPTION)"
                    eq_refl)).
  reflexivity.
Defined.

Lemma startswith_app (p t : string) : Str.startswith (p ++ t) p = true.
Proof.
  induction p as [|a p IH]; simpl; [reflexivity|].
  now rewrite Ascii.eqb_refl, IH.
Qed.

Lemma lstrip_not_space (s : string) :
  match Str.lstrip s with
  | String c _ => Str.is_space c = false
  | EmptyString => True
  end.
Proof.
  induction s as [|c s IH]; simpl; [exact I|].
  destruct (Str.is_space c) eqn:E; [exact IH|exact E].
Qed.

(** X3. [clean_name] leaves a name that does not begin with the marker as it
    is; of a name that begins with it and goes on in ASCII, it gives what
    follows the marker, from the first character on that is not white
    space; and it never makes a name longer. *)
Theorem clean_name_cases (s : string) :
  (has_marker s = false -> clean_name s = s)
  /\ (forall t, Str.is_ascii t = true ->
                s = ("DO_NOT_LOCALIZE:" ++ t)%string ->
                clean_name s = Str.lstrip t)
  /\ (String.length (clean_name s) <= String.length s)%nat.
Proof.
  rewrite clean_name_eq. unfold has_marker.
  rewrite startswith_cut_prefix.
  destruct (cut_prefix "DO_NOT_LOCALIZE:" s) as [u|] eqn:E.
  - apply cut_prefix_spec in E. repeat split.
    + discriminate.
    + intros t _ ->. apply (f_equal (cut_prefix "DO_NOT_LOCALIZE:")) in E.
      rewrite !cut_prefix_app in E. congruence.
    + rewrite E, length_append. pose proof (length_lstrip u). lia.
  - repeat split.
    + intros t _ ->. now rewrite cut_prefix_app in E.
    + lia.
Qed.

Lemma clean_name_cases_witness :
  has_marker "Show Launchpad" = false
  /\ clean_name "Show Launchpad" = "Show Launchpad"
  /\ Str.is_ascii "   Show Launchpad" = true
  /\ clean_name "DO_NOT_LOCALIZE:   Show Launchpad" = "Show Launchpad".
Proof.
  split; [reflexivity|split; [|split; [reflexivity|]]].
  - apply (proj1 (clean_name_cases "Show Launchpad")). reflexivity.
  - apply (proj1 (proj2 (clean_name_cases
                           "DO_NOT_LOCALIZE:   Show Launchpad"))
             "   Show Launchpad").
    + reflexivity.
    + reflexivity.
Defined.

(** ** The mappings of the tree *)

Lemma every_mapping_group (P : dict normalized -> Prop) (n k i : string)
    (d : dict normalized) :
  every_mapping P (Group n k i d)
  <-> P d /\ Forall (fun item => every_mapping P (snd item)) d.
Proof.
  simpl. apply and_iff_compat_l.
  induction d as [|item d IH]; split; intros H.
  - constructor.
  - exact I.
  - destruct H as [H1 H2]. constructor; [exact H1|now apply IH].
  - inversion H; subst. split; [assumption|now apply IH].
Qed.

Lemma dict_all_Forall (P : normalized -> Prop) (d : dict normalized) :
  list_all (string * normalized)
           (prod_all string (fun _ => unit) normalized P) d ->
  Forall (fun item => P (snd item)) d.
Proof.
  induction 1 as [|item Hitem d' _ IH]; constructor; [|exact IH].
  now destruct Hitem.
Qed.

Lemma every_mapping_impl (P Q : dict normalized -> Prop) (p : normalized) :
  (forall d, P d -> Q d) -> every_mapping P p -> every_mapping Q p.
Proof.
  intros H. induction p as [s|n k i d IH] using normalized_ind.
  - exact (fun x => x).
  - apply dict_all_Forall in IH.
    rewrite !every_mapping_group. intros [Hd Hall]. split; [now apply H|].
    clear Hd. induction IH as [|item d' Hv _ IHd]; [constructor|].
    inversion Hall as [|x l Hx Hl]; subst.
    constructor; [now apply Hv|now apply IHd].
Qed.

Lemma keys_dict_set_old {V : Type} (k : string) (v : V) (d : dict V) :
  In k (keys d) -> keys (dict_set k v d) = keys d.
Proof.
  induction d as [|[k' v'] d IH]; simpl; [tauto|].
  destruct (String.eqb_spec k' k) as [->|N]; [reflexivity|].
  intros [E|H]; [contradiction|]. simpl. now rewrite IH.
Qed.

Lemma keys_dict_set_new {V : Type} (k : string) (v : V) (d : dict V) :
  ~ In k (keys d) -> keys (dict_set k v d) = keys d ++ [k].
Proof.
  induction d as [|[k' v'] d IH]; simpl; [reflexivity|].
  intros H. destruct (String.eqb_spec k' k) as [->|N]; [tauto|].
  simpl. rewrite IH; tauto.
Qed.

Lemma NoDup_dict_set {V : Type} (k : string) (v : V) (d : dict V) :
  NoDup (keys d) -> NoDup (keys (dict_set k v d)).
Proof.
  intros H. destruct (in_dec string_dec k (keys d)) as [I|N].
  - now rewrite keys_dict_set_old.
  - rewrite keys_dict_set_new by exact N.
    apply NoDup_app; [exact H|repeat constructor; auto|].
    intros x Hx [<-|[]]. contradiction.
Qed.

Lemma keyed_dict_set (p : normalized) (d : dict normalized) :
  keyed_by_nixName d -> keyed_by_nixName (dict_set (nixName p) p d).
Proof.
  intros H k v I. apply in_dict_set in I. destruct I as [[= -> ->]|I].
  - reflexivity.
  - now apply H.
Qed.

Lemma group_store_mappings (parsed : option normalized)
    (d : dict normalized) :
  match parsed with
  | Some p => every_mapping mapping_ok p
  | None => True
  end ->
  NoDup (keys d) /\ keyed_by_nixName d
  /\ Forall (fun item => every_mapping mapping_ok (snd item)) d ->
  NoDup (keys (group_store parsed d))
  /\ keyed_by_nixName (group_store parsed d)
  /\ Forall (fun item => every_mapping mapping_ok (snd item))
            (group_store parsed d).
Proof.
  intros Hp (N & K & A). unfold group_store.
  destruct parsed as [[s|n k i sh]|]; [| |tauto].
  - destruct (String.eqb _ ""); [tauto|].
    repeat split.
    + now apply NoDup_dict_set.
    + now apply (keyed_dict_set (Shortcut s)).
    + apply Forall_dict_set; [exact I|exact A].
  - repeat split.
    + now apply NoDup_dict_set.
    + now apply (keyed_dict_set (Group n k i sh)).
    + apply Forall_dict_set; [exact Hp|exact A].
Qed.

Lemma parse_group_mappings (group : rawnode) (g : normalized) :
  Forall (fun e => forall p, parse_shortcut_element e = Some p ->
                             every_mapping mapping_ok p)
         (get (elements group) []) ->
  parse_group group = Some g ->
  every_mapping mapping_ok g /\ is_shortcut g = false.
Proof.
  intros H. rewrite parse_group_eq.
  destruct (String.eqb _ ""); [discriminate|].
  assert (W : forall d,
             NoDup (keys d) /\ keyed_by_nixName d
             /\ Forall (fun item => every_mapping mapping_ok (snd item)) d ->
             let d' := fold_left (group_step parse_shortcut_element)
                                 (get (elements group) []) d in
             NoDup (keys d') /\ keyed_by_nixName d'
             /\ Forall (fun item => every_mapping mapping_ok (snd item)) d').
  { induction H as [|e l He _ IH]; intros d Hd; simpl; [exact Hd|].
    apply IH. unfold group_step. apply group_store_mappings; [|exact Hd].
    destruct (parse_shortcut_element e) as [p|] eqn:E; [now apply He|exact I]. }
  specialize (W []). simpl in W.
  destruct W as (N & K & A).
  { repeat split; [constructor|intros ? ? []|constructor]. }
  destruct (fold_left _ _ _) as [|x d] eqn:F; [discriminate|].
  intros [= <-]. split; [|reflexivity].
  apply every_mapping_group. split; [|exact A].
  repeat split; [discriminate|exact N|exact K].
Qed.

Lemma parse_shortcut_element_mappings (element : rawnode) (p : normalized) :
  parse_shortcut_element element = Some p -> every_mapping mapping_ok p.
Proof.
  revert p.
  induction element as [n c k sk i ky m ck en els IH] using rawnode_ind.
  apply list_all_Forall in IH.
  set (e := RawNode n c k sk i ky m ck en els) in *.
  change els with (elements e) in IH.
  intros p. rewrite parse_shortcut_element_eq.
  destruct (String.eqb _ ""); [discriminate|].
  destruct (String.eqb _ "DisplayOnlyNode"); [discriminate|].
  destruct (sybmolichotkey e) as [h|].
  - intros [= <-]. exact I.
  - destruct (get (elements e) []) as [|x l] eqn:El; [discriminate|].
    rewrite <- El in IH. intros P.
    now apply (parse_group_mappings e p IH).
Qed.

Lemma parse_group_level (group : rawnode) (g : normalized) :
  parse_group group = Some g ->
  every_mapping mapping_ok g /\ is_shortcut g = false.
Proof.
  apply parse_group_mappings, Forall_forall.
  intros x _ p. apply parse_shortcut_element_mappings.
Qed.

Lemma level_ok_set (kind : bool) (p : normalized) (d : dict normalized) :
  every_mapping mapping_ok p -> is_shortcut p = kind -> nixName p <> "" ->
  level_ok kind d -> level_ok kind (dict_set (nixName p) p d).
Proof.
  intros M S K (N & Ky & A). repeat split.
  - now apply NoDup_dict_set.
  - now apply keyed_dict_set.
  - apply Forall_dict_set; [|exact A]. now repeat split.
Qed.

Lemma category_step_levels (acc : dict normalized * dict normalized)
    (elem : rawnode) :
  level_ok true (fst acc) /\ level_ok false (snd acc) ->
  level_ok true (fst (category_step acc elem))
  /\ level_ok false (snd (category_step acc elem)).
Proof.
  intros [H1 H2]. unfold category_step.
  destruct (is_subgroup elem).
  - unfold category_store_group.
    destruct (parse_group elem) as [p|] eqn:P; [|now split].
    destruct (String.eqb_spec (nixName p) "") as [|N]; [now split|].
    split; [exact H1|]. simpl.
    destruct (parse_group_level elem p P) as [M S].
    now apply level_ok_set.
  - unfold category_store_shortcut.
    destruct (parse_shortcut_element elem) as [[s|gn gk gi gd]|] eqn:P;
      [|now split|now split].
    destruct (String.eqb_spec (nixName (Shortcut s)) "") as [|N];
      [now split|].
    split; [|exact H2]. simpl fst.
    apply (level_ok_set true (Shortcut s));
      [exact I|reflexivity|exact N|exact H1].
Qed.

Lemma level_ok_empty (kind : bool) : level_ok kind [].
Proof. repeat split; [constructor|intros ? ? []|constructor]. Qed.

Lemma parse_category_levels (node : rawnode) (c : category) :
  parse_category node = Some c -> category_levels c.
Proof.
  rewrite parse_category_eq.
  destruct (_ || _); [discriminate|]. intros [= <-].
  set (walk := fold_left category_step (get (elements node) []) ([], [])).
  assert (W : level_ok true (fst walk) /\ level_ok false (snd walk)).
  { apply (fold_left_invariant
             (fun acc => level_ok true (fst acc) /\ level_ok false (snd acc))).
    - intros a b. apply category_step_levels.
    - split; apply level_ok_empty. }
  destruct W as [W1 W2]. exists (fst walk), (snd walk).
  split; [exact W1|split; [exact W2|split; reflexivity]].
Qed.

(** The state of the loop of [main]: distinct keys that are not empty and
    are those of the categories, which are as [parse_category] leaves
    them. *)
Lemma tree_levels (data : list rawnode) :
  NoDup (keys (build_categories data))
  /\ Forall (fun item => fst item = category_nixName (snd item)
                         /\ fst item <> ""
                         /\ category_levels (snd item))
            (build_categories data).
Proof.
  unfold build_categories.
  apply (fold_left_invariant
           (fun d => NoDup (keys d)
                     /\ Forall (fun item =>
                                  fst item = category_nixName (snd item)
                                  /\ fst item <> ""
                                  /\ category_levels (snd item)) d)).
  - intros d node [N A]. unfold main_step, main_store.
    destruct (parse_category node) as [c|] eqn:P; [|now split].
    destruct (String.eqb_spec (category_nixName c) "") as [|K]; [now split|].
    split; [now apply NoDup_dict_set|].
    apply Forall_dict_set; [|exact A].
    repeat split; [exact K|]. now apply (parse_category_levels node).
  - split; constructor.
Qed.

Lemma level_mappings (P : dict normalized -> Prop) (kind : bool)
    (d : dict normalized) :
  (forall d, mapping_ok d -> P d) ->
  (d <> [] -> level_ok kind d -> P d) ->
  level_ok kind d ->
  present P (nonempty d)
  /\ Forall (fun item => every_mapping P (snd item)) (get (nonempty d) []).
Proof.
  intros H Hd L. split.
  - destruct d; [exact I|]. simpl. now apply Hd.
  - rewrite get_nonempty. destruct L as (_ & _ & A).
    eapply Forall_impl; [|exact A]. intros item (M & _).
    now apply (every_mapping_impl mapping_ok).
Qed.

Lemma category_levels_mappings (P : dict normalized -> Prop)
    (c : category) :
  (forall d, mapping_ok d -> P d) ->
  (forall kind d, d <> [] -> level_ok kind d -> P d) ->
  category_levels c -> category_mappings P c.
Proof.
  intros H Hd (sh & sg & L1 & L2 & E1 & E2).
  unfold category_mappings. rewrite E1, E2.
  destruct (level_mappings P true sh H (Hd true sh) L1).
  destruct (level_mappings P false sg H (Hd false sg) L2).
  now repeat split.
Qed.

Lemma tree_levels_mappings (P : dict normalized -> Prop)
    (data : list rawnode) :
  (forall d, mapping_ok d -> P d) ->
  (forall kind d, d <> [] -> level_ok kind d -> P d) ->
  tree_mappings P (build_categories data).
Proof.
  intros H Hd. destruct (tree_levels data) as [_ A].
  eapply Forall_impl; [|exact A]. intros item (_ & _ & L).
  now apply category_levels_mappings.
Qed.

(** X4. In the tree every entry is under the key that its ['nixName'] gives,
    in every mapping at any depth; the key of a category is not empty,
    and neither are the keys of the two mappings of a category. *)
Theorem tree_keys (data : list rawnode) :
  (forall k c, In (k, c) (build_categories data) ->
               k = category_nixName c /\ k <> ""
               /\ forall k' p,
                    In (k', p) (get (category_shortcuts c) []
                                ++ get (category_subgroups c) []) ->
                    k' <> "")
  /\ tree_mappings keyed_by_nixName (build_categories data).
Proof.
  split.
  - intros k c H. destruct (tree_levels data) as [_ A].
    rewrite Forall_forall in A. destruct (A _ H) as (E & N & L).
    simpl in E, N, L.
    split; [exact E|split; [exact N|]].
    destruct L as (sh & sg & L1 & L2 & -> & ->).
    rewrite !get_nonempty. intros k' p I.
    destruct L1 as (_ & _ & A1), L2 as (_ & _ & A2).
    rewrite Forall_forall in A1, A2.
    apply in_app_or in I. destruct I as [I|I].
    + now apply (A1 _ I).
    + now apply (A2 _ I).
  - apply tree_levels_mappings.
    + now intros d (_ & _ & K).
    + now intros kind d _ (_ & K & _).
Qed.

(** X5. No mapping of the tree has the same key twice: not the tree itself,
    and none of the mappings of categories, subgroups and nested
    groups. *)
Theorem tree_keys_distinct (data : list rawnode) :
  NoDup (keys (build_categories data))
  /\ tree_mappings (fun d => NoDup (keys d)) (build_categories data).
Proof.
  split; [apply tree_levels|].
  apply tree_levels_mappings.
  - now intros d (_ & N & _).
  - now intros kind d _ (N & _).
Qed.

(** X6. A mapping that is in the tree is never empty, at any depth; the
    ['shortcuts'] of a category hold shortcuts only and its ['subgroups']
    hold groups only. *)
Theorem tree_kinds (data : list rawnode) :
  tree_mappings (fun d => d <> []) (build_categories data)
  /\ forall k c, In (k, c) (build_categories data) ->
       Forall (fun item => is_shortcut (snd item) = true)
              (get (category_shortcuts c) [])
       /\ Forall (fun item => is_shortcut (snd item) = false)
                 (get (category_subgroups c) []).
Proof.
  split.
  - apply tree_levels_mappings.
    + now intros d (N & _).
    + now intros kind d N _.
  - intros k c H. destruct (tree_levels data) as [_ A].
    rewrite Forall_forall in A. destruct (A _ H) as (_ & _ & L).
    simpl in L. destruct L as (sh & sg & L1 & L2 & -> & ->).
    rewrite !get_nonempty.
    destruct L1 as (_ & _ & A1), L2 as (_ & _ & A2).
    split; (eapply Forall_impl; [|eassumption]); now intros item (_ & S & _).
Qed.

(** ** Where the shortcuts of the tree come from *)

Lemma fold_left_invariant_in {A B : Type} (P : A -> Prop) (f : A -> B -> A)
    (l : list B) (init : A) :
  (forall a b, In b l -> P a -> P (f a b)) ->
  P init -> P (fold_left f l init).
Proof.
  revert init; induction l as [|b l IH]; intros init H Hi; simpl.
  - exact Hi.
  - apply IH.
    + intros a b' I. apply H. now right.
    + apply H; [now left|exact Hi].
Qed.

Lemma nodes_eq (e : rawnode) :
  nodes e = e :: flat_map nodes (get (elements e) []).
Proof. destruct e as [? ? ? ? ? ? ? ? ? [l|]]; reflexivity. Qed.

Lemma dict_shortcuts_set (s : shortcut) (k : string) (v : normalized)
    (d : dict normalized) :
  In s (dict_shortcuts (dict_set k v d)) ->
  In s (shortcuts_in v) \/ In s (dict_shortcuts d).
Proof.
  unfold dict_shortcuts. rewrite !in_flat_map.
  intros ([k' v'] & I & Hs). apply in_dict_set in I.
  destruct I as [[= -> ->]|I]; [now left|].
  right. now exists (k', v').
Qed.

Lemma group_store_sources (Q : shortcut -> Prop)
    (parsed : option normalized) (d : dict normalized) :
  (forall p, parsed = Some p -> forall s, In s (shortcuts_in p) -> Q s) ->
  (forall s, In s (dict_shortcuts d) -> Q s) ->
  forall s, In s (dict_shortcuts (group_store parsed d)) -> Q s.
Proof.
  intros Hp Hd s. unfold group_store.
  destruct parsed as [[s0|n k i sh]|]; [| |apply Hd].
  - destruct (String.eqb _ ""); [apply Hd|].
    intros I. apply dict_shortcuts_set in I. destruct I as [I|I].
    + now apply (Hp (Shortcut s0)).
    + now apply Hd.
  - intros I. apply dict_shortcuts_set in I. destruct I as [I|I].
    + now apply (Hp (Group n k i sh)).
    + now apply Hd.
Qed.

Lemma parse_group_sources (group : rawnode) (g : normalized) :
  Forall (fun e => forall p, parse_shortcut_element e = Some p ->
            forall s, In s (shortcuts_in p) ->
                      exists e', In e' (nodes e) /\ source_of s e')
         (get (elements group) []) ->
  parse_group group = Some g ->
  forall s, In s (shortcuts_in g) ->
            exists e', In e' (nodes group) /\ source_of s e'.
Proof.
  intros H. rewrite parse_group_eq.
  destruct (String.eqb _ ""); [discriminate|].
  set (Q := fun s => exists e', In e' (flat_map nodes
                                         (get (elements group) []))
                                /\ source_of s e').
  assert (W : forall s,
             In s (dict_shortcuts
                     (fold_left (group_step parse_shortcut_element)
                                (get (elements group) []) [])) -> Q s).
  { apply (fold_left_invariant_in
             (fun d => forall s, In s (dict_shortcuts d) -> Q s)).
    - intros d e I Hd. unfold group_step. apply group_store_sources; [|exact Hd].
      intros p P s Hs. rewrite Forall_forall in H.
      destruct (H e I p P s Hs) as (e' & Ie & S).
      exists e'. split; [|exact S]. apply in_flat_map. now exists e.
    - intros s []. }
  destruct (fold_left _ _ _) as [|x d] eqn:F; [discriminate|].
  intros [= <-] s Hs. destruct (W s Hs) as (e' & I & S).
  exists e'. split; [|exact S]. rewrite nodes_eq. now right.
Qed.

Lemma parse_shortcut_element_sources (element : rawnode) (p : normalized) :
  parse_shortcut_element element = Some p ->
  forall s, In s (shortcuts_in p) ->
            exists e', In e' (nodes element) /\ source_of s e'.
Proof.
  revert p.
  induction element as [n c k sk i ky m ck en els IH] using rawnode_ind.
  apply list_all_Forall in IH.
  set (e := RawNode n c k sk i ky m ck en els) in *.
  change els with (elements e) in IH.
  intros p. rewrite parse_shortcut_element_eq.
  destruct (String.eqb_spec (get (name e) "") "") as [|N]; [discriminate|].
  destruct (String.eqb_spec (get (node_class e) "") "DisplayOnlyNode")
    as [|C]; [discriminate|].
  destruct (sybmolichotkey e) as [h|] eqn:K.
  - intros [= <-] s [<-|[]]. exists e. split.
    + rewrite nodes_eq. now left.
    + now repeat split.
  - destruct (get (elements e) []) as [|x l] eqn:El; [discriminate|].
    rewrite <- El in IH. intros P.
    now apply (parse_group_sources e p IH).
Qed.

Lemma category_step_sources (Q : shortcut -> Prop)
    (acc : dict normalized * dict normalized) (elem : rawnode) :
  (forall s e', In e' (nodes elem) -> source_of s e' -> Q s) ->
  (forall s, In s (dict_shortcuts (fst acc) ++ dict_shortcuts (snd acc)) ->
             Q s) ->
  forall s,
    In s (dict_shortcuts (fst (category_step acc elem))
          ++ dict_shortcuts (snd (category_step acc elem))) -> Q s.
Proof.
  intros He Ha s. unfold category_step.
  destruct (is_subgroup elem).
  - unfold category_store_group.
    destruct (parse_group elem) as [p|] eqn:P; [|apply Ha].
    destruct (String.eqb _ ""); [apply Ha|]. simpl.
    intros I. apply in_app_or in I. destruct I as [I|I].
    + apply Ha, in_or_app. now left.
    + apply dict_shortcuts_set in I. destruct I as [I|I].
      * destruct (parse_group_sources elem p) with (s := s)
          as (e' & Ie & S); try assumption.
        { apply Forall_forall. intros x _ q.
          apply parse_shortcut_element_sources. }
        now apply (He s e').
      * apply Ha, in_or_app. now right.
  - unfold category_store_shortcut.
    destruct (parse_shortcut_element elem) as [[s0|gn gk gi gd]|] eqn:P;
      [|apply Ha|apply Ha].
    destruct (String.eqb _ ""); [apply Ha|]. simpl.
    intros I. apply in_app_or in I. destruct I as [I|I].
    + apply dict_shortcuts_set in I. destruct I as [I|I].
      * destruct (parse_shortcut_element_sources elem _ P s I)
          as (e' & Ie & S).
        now apply (He s e').
      * apply Ha, in_or_app. now left.
    + apply Ha, in_or_app. now right.
Qed.

Lemma parse_category_sources (node : rawnode) (c : category) :
  parse_category node = Some c ->
  forall s, In s (category_all_shortcuts c) ->
            exists e', In e' (nodes node) /\ source_of s e'.
Proof.
  rewrite parse_category_eq.
  destruct (_ || _); [discriminate|]. intros [= <-].
  unfold category_all_shortcuts. simpl. rewrite !get_nonempty.
  apply (fold_left_invariant_in
           (fun acc => forall s,
                In s (dict_shortcuts (fst acc) ++ dict_shortcuts (snd acc)) ->
                exists e', In e' (nodes node) /\ source_of s e')).
  - intros acc e I Ha. apply category_step_sources; [|exact Ha].
    intros s e' Ie S. exists e'. split; [|exact S].
    rewrite nodes_eq. right. apply in_flat_map. now exists e.
  - intros s [].
Qed.

(** X7. The builder invents no shortcut: every shortcut of the tree, at any
    depth, is the dictionary built from the fields of a node of the table
    that carries its hotkey identifier, has a name and is not
    display-only. *)
Theorem tree_shortcuts_sources (data : list rawnode) (s : shortcut) :
  In s (tree_shortcuts (build_categories data)) ->
  exists e, In e (flat_map nodes data) /\ source_of s e.
Proof.
  revert s. unfold build_categories.
  apply (fold_left_invariant_in
           (fun d => forall s, In s (tree_shortcuts d) ->
                               exists e, In e (flat_map nodes data)
                                         /\ source_of s e)).
  - intros d node I Hd s. unfold main_step, main_store.
    destruct (parse_category node) as [c|] eqn:P; [|apply Hd].
    destruct (String.eqb _ ""); [apply Hd|].
    unfold tree_shortcuts. rewrite in_flat_map.
    intros ([k c'] & Ic & Hs). apply in_dict_set in Ic.
    destruct Ic as [[= -> ->]|Ic].
    + destruct (parse_category_sources node c P s Hs) as (e & Ie & S).
      exists e. split; [|exact S]. apply in_flat_map. now exists node.
    + apply Hd. unfold tree_shortcuts. apply in_flat_map.
      now exists (k, c').
  - intros s [].
Qed.

Lemma tree_shortcuts_sources_witness :
  In (shortcut_of (with_hotkey 79 (named "Move left a space")) 79)
     (tree_shortcuts (build_categories [marker_group_table]))
  /\ exists e, In e (flat_map nodes [marker_group_table])
               /\ source_of
                    (shortcut_of
                       (with_hotkey 79 (named "Move left a space")) 79) e.
Proof.
  assert (I : In (shortcut_of (with_hotkey 79 (named "Move left a space")) 79)
                 (tree_shortcuts (build_categories [marker_group_table])))
    by (vm_compute; tauto).
  split; [exact I|].
  exact (tree_shortcuts_sources [marker_group_table] _ I).
Defined.

(** ** The order of the categories, and which one stays *)

Lemma existsb_eqb_In (k : string) (l : list string) :
  existsb (String.eqb k) l = true <-> In k l.
Proof.
  rewrite existsb_exists. split.
  - intros (x & I & E). apply String.eqb_eq in E. now subst.
  - intros I. exists k. split; [exact I|apply String.eqb_refl].
Qed.

Lemma keys_dict_set_eq {V : Type} (k : string) (v : V) (d : dict V) :
  keys (dict_set k v d)
  = if existsb (String.eqb k) (keys d) then keys d else keys d ++ [k].
Proof.
  destruct (existsb (String.eqb k) (keys d)) eqn:E.
  - apply keys_dict_set_old. now apply existsb_eqb_In.
  - apply keys_dict_set_new. intros I. apply existsb_eqb_In in I. congruence.
Qed.

Lemma stored_keys (l : list category) (init : dict category) :
  keys (fold_left (fun d c => dict_set (category_nixName c) c d) l init)
  = fold_left
      (fun seen k =>
         if existsb (String.eqb k) seen then seen else seen ++ [k])
      (map category_nixName l) (keys init).
Proof.
  revert init; induction l as [|c l IH]; intros init; [reflexivity|].
  simpl. rewrite IH, keys_dict_set_eq. reflexivity.
Qed.

(** X8. The categories of the tree are in the order in which their keys come
    first in the table; when several top level nodes give the same key,
    the tree has, at the place of the first, the category of the last. *)
Theorem tree_order (data : list rawnode) :
  keys (build_categories data)
  = first_occurrences (map category_nixName (emitted data))
  /\ forall k,
       dict_get k (build_categories data)
       = find_last (fun c => String.eqb (category_nixName c) k)
                   (emitted data).
Proof.
  unfold build_categories. rewrite build_categories_emitted. split.
  - apply stored_keys.
  - intros k. rewrite stored_value.
    now destruct (find_last _ _).
Qed.

Example colliding_categories :
  keys (build_categories colliding_table) = ["missionControl"; "keyboard"]
  /\ option_map category_identifier
       (dict_get "missionControl" (build_categories colliding_table))
     = Some "com.apple.second".
Proof. split; vm_compute; reflexivity. Qed.

(** ** The summary of [main] *)

Lemma summary_count_eq (cat : category) :
  summary_count cat
  = (List.length (get (category_shortcuts cat) [])
     + list_sum (map (fun subgroup => List.length (group_shortcuts subgroup))
                     (values (get (category_subgroups cat) []))))%nat.
Proof.
  unfold summary_count.
  generalize (List.length (get (category_shortcuts cat) [])).
  induction (values (get (category_subgroups cat) [])) as [|g l IH];
    intros n; simpl; [lia|].
  rewrite IH. lia.
Qed.

Lemma summary_fold (categories : dict category) (acc : nat * list string) :
  fold_left summary_step categories acc
  = ((fst acc + list_sum (map summary_count (values categories)))%nat,
     snd acc ++ map summary_line categories).
Proof.
  revert acc; induction categories as [|item l IH]; intros [n printed];
    simpl.
  - now rewrite Nat.add_0_r, app_nil_r.
  - rewrite IH. simpl. f_equal; [lia|now rewrite <- app_assoc].
Qed.

Lemma length_dict_map {V W : Type} (f : V -> W) (d : dict V) :
  List.length (dict_map f d) = List.length d.
Proof. apply length_map. Qed.

Lemma values_dict_map {V W : Type} (f : V -> W) (d : dict V) :
  values (dict_map f d) = map f (values d).
Proof. unfold values, dict_map. rewrite !map_map. reflexivity. Qed.

Lemma category_entries_of (c : category) :
  category_entries (cat_of c) = summary_count c.
Proof.
  rewrite summary_count_eq. unfold category_entries, cat_of. simpl.
  rewrite !get_dict_map, length_dict_map, values_dict_map, map_map.
  f_equal. f_equal. apply map_ext. intros [s|n k i d]; simpl.
  - reflexivity.
  - apply length_dict_map.
Qed.

(** X9. [main] prints one line for each category of the tree, in order, and
    a total that is the sum of the counts of these lines; that total is
    the total of the statistics of the report of the same document. *)
Theorem summary_total_consistent (o : output) :
  summary (output_categories o)
  = map summary_line (output_categories o)
    ++ [("Total: "
         ++ Str.of_nat (list_sum (map summary_count
                                      (values (output_categories o))))
         ++ " shortcuts in "
         ++ Str.of_nat (List.length (output_categories o))
         ++ " categories")%string]
  /\ summary_total (output_categories o) = total_shortcuts (tree_of o).
Proof.
  unfold summary, summary_total. rewrite summary_fold. simpl. split.
  - reflexivity.
  - unfold total_shortcuts, statistics. rewrite statistics_total. simpl.
    rewrite values_dict_map, map_map. f_equal.
    apply map_ext. intros c. symmetry. apply category_entries_of.
Qed.

(** ** The sizes of the reports *)

Lemma list_sum_map_add {A : Type} (f g : A -> nat) (l : list A) :
  list_sum (map (fun x => (f x + g x)%nat) l)
  = (list_sum (map f l) + list_sum (map g l))%nat.
Proof. induction l as [|x l IH]; simpl; lia. Qed.

Lemma list_sum_map_S {A : Type} (f : A -> nat) (l : list A) :
  list_sum (map (fun x => S (f x)) l)
  = (List.length l + list_sum (map f l))%nat.
Proof. induction l as [|x l IH]; simpl; lia. Qed.

Section Sizes.

Variables include_ids include_dynamic : bool.

Lemma length_text_category_lines (item : string * cat_data) :
  List.length (text_category_lines include_ids include_dynamic item)
  = S (List.length (get (cat_subgroups (snd item)) [])
       + category_entries (snd item)).
Proof.
  unfold text_category_lines, category_entries. simpl.
  rewrite length_app, length_map, length_flat_map.
  unfold text_subgroup_lines. simpl.
  rewrite (map_ext _ (fun x => S (List.length
                                    (get (subgroup_shortcuts (snd x)) [])))).
  - rewrite list_sum_map_S. unfold values. rewrite map_map. lia.
  - intros x. now rewrite length_map.
Qed.

Lemma length_markdown_category_lines (item : string * cat_data) :
  List.length (markdown_category_lines include_ids include_dynamic item)
  = S (List.length (get (cat_subgroups (snd item)) [])
       + category_entries (snd item)).
Proof.
  unfold markdown_category_lines, category_entries. simpl.
  rewrite length_app, length_map, length_flat_map.
  unfold markdown_subgroup_lines. simpl.
  rewrite (map_ext _ (fun x => S (List.length
                                    (get (subgroup_shortcuts (snd x)) [])))).
  - rewrite list_sum_map_S. unfold values. rewrite map_map. lia.
  - intros x. now rewrite length_map.
Qed.

Lemma body_size (data : tree_data) :
  list_sum
    (map (fun item : string * cat_data =>
            S (List.length (get (cat_subgroups (snd item)) [])
               + category_entries (snd item)))
         (get (categories data) []))
  = (List.length (get (categories data) []) + subgroup_count data
     + total_shortcuts data)%nat.
Proof.
  rewrite list_sum_map_S, list_sum_map_add.
  unfold subgroup_count, total_shortcuts, statistics.
  rewrite statistics_total. unfold values. rewrite !map_map. simpl. lia.
Qed.

End Sizes.

(** X10. The list [lines] that [generate_text_tree] fills and then joins
    has one element for the root, one for each category, one for each
    subgroup and one for each entry that the statistics count.  (An
    element is one line of the report when it holds no newline, which
    is up to the names and keys of the document.) *)
Theorem text_lines_count (include_ids include_dynamic : bool)
    (data : tree_data) :
  List.length (text_lines include_ids include_dynamic data)
  = (1 + List.length (get (categories data) []) + subgroup_count data
     + total_shortcuts data)%nat.
Proof.
  rewrite text_lines_eq. simpl. rewrite length_flat_map.
  rewrite (map_ext _ _ (length_text_category_lines _ _)).
  rewrite body_size. lia.
Qed.

(** X11. The two renderers walk the tree alike: whatever the toggles of
    each, the list [lines] that [generate_markdown_tree] joins has as
    many elements as the list [lines] of [generate_text_tree] and twelve
    more, or fourteen when the document has dynamic shortcuts. *)
Theorem markdown_lines_count (ids ids' dynamic dynamic' : bool)
    (data : tree_data) :
  List.length (markdown_lines ids dynamic data)
  = (List.length (text_lines ids' dynamic' data)
     + if dynamicShortcuts data then 14 else 12)%nat.
Proof.
  rewrite markdown_lines_eq, text_lines_eq, !length_app. simpl.
  rewrite !length_flat_map.
  rewrite (map_ext _ _ (length_text_category_lines _ _)).
  rewrite (map_ext _ _ (length_markdown_category_lines _ _)).
  unfold markdown_header. destruct (dynamicShortcuts data); simpl; lia.
Qed.

(** ** The dynamic shortcuts *)

Lemma count_dynamic_fold (l : list entry_data) (n : nat) :
  fold_left (fun n s => if entry_dynamic s then S n else n) l n
  = (n + List.length (filter entry_dynamic l))%nat.
Proof.
  revert n; induction l as [|s l IH]; intros n; simpl; [lia|].
  rewrite IH. destruct (entry_dynamic s); simpl; lia.
Qed.

Lemma count_dynamic_eq (d : dict entry_data) :
  count_dynamic d = List.length (filter entry_dynamic (values d)).
Proof. unfold count_dynamic. now rewrite count_dynamic_fold. Qed.

Lemma count_dynamic_le (d : dict entry_data) :
  (count_dynamic d <= List.length d)%nat.
Proof.
  rewrite count_dynamic_eq.
  etransitivity; [apply filter_length_le|].
  unfold values. now rewrite length_map.
Qed.

Lemma stats_subgroup_dynamic (l : list subgroup_data) (acc : nat * nat) :
  snd (fold_left stats_subgroup l acc)
  = (snd acc
     + list_sum (map (fun subgroup =>
                        count_dynamic (get (subgroup_shortcuts subgroup) []))
                     l))%nat.
Proof.
  revert acc; induction l as [|g l IH]; intros [t d]; simpl.
  - lia.
  - rewrite IH. simpl. lia.
Qed.

Lemma stats_category_dynamic (acc : nat * nat) (cat : cat_data) :
  snd (stats_category acc cat) = (snd acc + category_dynamic cat)%nat.
Proof.
  destruct acc as [t d]. unfold stats_category, category_dynamic.
  rewrite stats_subgroup_dynamic. simpl. lia.
Qed.

Lemma statistics_dynamic (l : list cat_data) (acc : nat * nat) :
  snd (fold_left stats_category l acc)
  = (snd acc + list_sum (map category_dynamic l))%nat.
Proof.
  revert acc; induction l as [|c l IH]; intros acc; simpl.
  - lia.
  - rewrite IH, stats_category_dynamic. lia.
Qed.

Lemma category_dynamic_le (cat : cat_data) :
  (category_dynamic cat <= category_entries cat)%nat.
Proof.
  unfold category_dynamic, category_entries.
  apply Nat.add_le_mono; [apply count_dynamic_le|].
  induction (values (get (cat_subgroups cat) [])) as [|g l IH]; simpl.
  - lia.
  - apply Nat.add_le_mono; [apply count_dynamic_le|exact IH].
Qed.

(** X12. The count of dynamic shortcuts of the statistics is the number of
    entries, of the categories and of their subgroups, whose ['dynamic']
    is true; it is never more than the total. *)
Theorem dynamic_count_bound (data : tree_data) :
  dynamic_count data
  = list_sum (map category_dynamic (values (get (categories data) [])))
  /\ (forall d, count_dynamic d
                = List.length (filter entry_dynamic (values d)))
  /\ (dynamic_count data <= total_shortcuts data)%nat.
Proof.
  assert (D : dynamic_count data
              = list_sum (map category_dynamic
                              (values (get (categories data) [])))).
  { unfold dynamic_count, statistics. now rewrite statistics_dynamic. }
  split; [exact D|split; [apply count_dynamic_eq|]].
  rewrite D. unfold total_shortcuts, statistics. rewrite statistics_total.
  simpl. clear D.
  induction (values (get (categories data) [])) as [|c l IH]; simpl.
  - lia.
  - apply Nat.add_le_mono; [apply category_dynamic_le|exact IH].
Qed.

Lemma omits_mark_after (mark a x y : string) :
  omits_mark mark x y -> omits_mark mark (a ++ x) (a ++ y).
Proof.
  intros [line|before].
  - constructor.
  - rewrite <- append_assoc. constructor.
Qed.

Lemma dynamic_str_omitted (mark : string) (d : entry_data) :
  omits_mark mark (dynamic_str mark true d) (dynamic_str mark false d).
Proof.
  unfold dynamic_str. simpl. destruct (entry_dynamic d); [|constructor].
  apply (omits_the_mark mark "").
Qed.

Section Dynamic.

Variable include_ids : bool.

Lemma text_entry_unmarked (indent : string) (item : string * entry_data) :
  omits_mark " [dynamic]"
             (text_entry_line include_ids true indent item)
             (text_entry_line include_ids false indent item).
Proof.
  destruct item as [k d]. unfold text_entry_line.
  do 7 apply omits_mark_after. apply dynamic_str_omitted.
Qed.

Lemma text_category_unmarked (item : string * cat_data) :
  Forall2 (omits_mark " [dynamic]")
          (text_category_lines include_ids true item)
          (text_category_lines include_ids false item).
Proof.
  unfold text_category_lines. constructor; [constructor|].
  apply Forall2_app.
  - apply Forall2_map_same, text_entry_unmarked.
  - apply Forall2_flat_map_same. intros g.
    unfold text_subgroup_lines. constructor; [constructor|].
    apply Forall2_map_same, text_entry_unmarked.
Qed.

Lemma markdown_entry_unmarked (indent : string)
    (item : string * entry_data) :
  omits_mark " `[dynamic]`"
             (markdown_entry_line include_ids true indent item)
             (markdown_entry_line include_ids false indent item).
Proof.
  destruct item as [k d]. unfold markdown_entry_line.
  do 6 apply omits_mark_after. apply dynamic_str_omitted.
Qed.

Lemma markdown_category_unmarked (item : string * cat_data) :
  Forall2 (omits_mark " `[dynamic]`")
          (markdown_category_lines include_ids true item)
          (markdown_category_lines include_ids false item).
Proof.
  unfold markdown_category_lines. constructor; [constructor|].
  apply Forall2_app.
  - apply Forall2_map_same, markdown_entry_unmarked.
  - apply Forall2_flat_map_same. intros g.
    unfold markdown_subgroup_lines. constructor; [constructor|].
    apply Forall2_map_same, markdown_entry_unmarked.
Qed.

Lemma text_category_undynamic (item : string * cat_data) :
  text_category_lines include_ids true
                      (fst item, erase_cat_dynamic (snd item))
  = text_category_lines include_ids false item.
Proof.
  destruct item as [k c]. unfold text_category_lines. f_equal.
  cbn [snd erase_cat_dynamic cat_shortcuts cat_subgroups].
  rewrite !get_dict_map. unfold dict_map. rewrite map_map, flat_map_map.
  f_equal.
  - apply map_ext. now intros [k' d].
  - apply flat_map_ext. intros [k' g]. unfold text_subgroup_lines. f_equal.
    cbn [snd erase_subgroup_dynamic subgroup_shortcuts].
    rewrite get_dict_map. unfold dict_map. rewrite map_map.
    apply map_ext. now intros [k'' d].
Qed.

Lemma text_lines_undynamic (data : tree_data) :
  text_lines include_ids false data
  = text_lines include_ids true (erase_dynamic data).
Proof.
  rewrite !text_lines_eq. f_equal.
  cbn [erase_dynamic categories]. rewrite get_dict_map.
  unfold dict_map. rewrite flat_map_map.
  symmetry. apply flat_map_ext. intros item.
  apply text_category_undynamic.
Qed.

End Dynamic.

(** X13. In compact mode the lines without the marks of the dynamic shortcuts
    are, one for one and in the same order, the lines with the marks less
    the mark [" [dynamic]"] at their end; and the report without the
    marks is the report, with the marks, of the tree in which no entry
    is dynamic. *)
Theorem dynamic_toggle_text (include_ids : bool) (data : tree_data) :
  Forall2 (omits_mark " [dynamic]")
          (text_lines include_ids true data)
          (text_lines include_ids false data)
  /\ text_lines include_ids false data
     = text_lines include_ids true (erase_dynamic data).
Proof.
  split; [|apply text_lines_undynamic].
  rewrite !text_lines_eq. constructor; [constructor|].
  apply Forall2_flat_map_same, text_category_unmarked.
Qed.

Lemma Forall2_same {A : Type} (R : A -> A -> Prop) (l : list A) :
  (forall x, R x x) -> Forall2 R l l.
Proof. intros H; induction l; constructor; auto. Qed.

Lemma markdown_category_undynamic (include_ids : bool)
    (item : string * cat_data) :
  markdown_category_lines include_ids true
                          (fst item, erase_cat_dynamic (snd item))
  = markdown_category_lines include_ids false item.
Proof.
  destruct item as [k c]. unfold markdown_category_lines. f_equal.
  cbn [snd erase_cat_dynamic cat_shortcuts cat_subgroups].
  rewrite !get_dict_map. unfold dict_map. rewrite map_map, flat_map_map.
  f_equal.
  - apply map_ext. now intros [k' d].
  - apply flat_map_ext. intros [k' g]. unfold markdown_subgroup_lines.
    f_equal. cbn [snd erase_subgroup_dynamic subgroup_shortcuts].
    rewrite get_dict_map. unfold dict_map. rewrite map_map.
    apply map_ext. now intros [k'' d].
Qed.

(** X14. In markdown the toggle takes the marks off the lines of the entries
    and changes nothing else.  Line for line, the report without the
    marks has the lines of the report with them, less the mark
    [" `[dynamic]`"] at their end.  Both reports have the header and the
    statistics of the tree as it is, so the note of the header about the
    marks and the count of dynamic shortcuts stay; between the two, the
    report without the marks has the lines that the renderer with the
    marks gives for the categories of the tree in which no entry is
    dynamic. *)
Theorem dynamic_toggle_markdown (include_ids : bool) (data : tree_data) :
  Forall2 (omits_mark " `[dynamic]`")
          (markdown_lines include_ids true data)
          (markdown_lines include_ids false data)
  /\ markdown_lines include_ids true data
     = markdown_header data
       ++ flat_map (markdown_category_lines include_ids true)
                   (get (categories data) [])
       ++ markdown_statistics data
  /\ markdown_lines include_ids false data
     = markdown_header data
       ++ flat_map (markdown_category_lines include_ids true)
                   (get (categories (erase_dynamic data)) [])
       ++ markdown_statistics data
  /\ (dynamicShortcuts data = true ->
      In "> **Note**: Shortcuts marked with `[dynamic]` are dynamically created by macOS."
         (markdown_lines include_ids false data))
  /\ In ("- Dynamic shortcuts: " ++ Str.of_nat (dynamic_count data))%string
        (markdown_lines include_ids false data).
Proof.
  rewrite !markdown_lines_eq.
  split; [|split; [reflexivity|split; [|split]]].
  - apply Forall2_app; [apply Forall2_same; constructor|].
    apply Forall2_app; [|apply Forall2_same; constructor].
    apply Forall2_flat_map_same, markdown_category_unmarked.
  - f_equal. f_equal.
    cbn [erase_dynamic categories]. rewrite get_dict_map.
    unfold dict_map. rewrite flat_map_map.
    apply flat_map_ext. intros item. symmetry.
    apply markdown_category_undynamic.
  - intros H. apply in_or_app. left. unfold markdown_header. rewrite H.
    simpl. tauto.
  - apply in_or_app. right. apply in_or_app. right. simpl. tauto.
Qed.

Lemma dynamic_toggle_markdown_witness :
  dynamicShortcuts noted_tree = true
  /\ In "> **Note**: Shortcuts marked with `[dynamic]` are dynamically created by macOS."
        (markdown_lines true false noted_tree)
  /\ In "    - `moveLeftASpace` - Move left a space (ID: 79) `[dynamic]`"
        (markdown_lines true true noted_tree)
  /\ In "    - `moveLeftASpace` - Move left a space (ID: 79)"
        (markdown_lines true false noted_tree)
  /\ In "- Dynamic shortcuts: 1" (markdown_lines true false noted_tree).
Proof.
  split; [reflexivity|]. split.
  - apply (dynamic_toggle_markdown true noted_tree). reflexivity.
  - repeat split; vm_compute; tauto.
Defined.

(** ** The toggle of the ids in markdown *)

Lemma category_entries_erased (c : cat_data) :
  category_entries (erase_cat_ids c) = category_entries c.
Proof.
  unfold category_entries. simpl.
  rewrite !get_dict_map, length_dict_map, values_dict_map, map_map.
  f_equal. f_equal. apply map_ext. intros g. simpl.
  now rewrite get_dict_map, length_dict_map.
Qed.

Lemma count_dynamic_erased (o : option (dict entry_data)) :
  count_dynamic (get (option_map (dict_map erase_entry_id) o) [])
  = count_dynamic (get o []).
Proof.
  rewrite get_dict_map, !count_dynamic_eq, values_dict_map.
  induction (values (get o [])) as [|d l IH]; simpl; [reflexivity|].
  destruct (entry_dynamic d); simpl; now rewrite IH.
Qed.

Lemma category_dynamic_erased (c : cat_data) :
  category_dynamic (erase_cat_ids c) = category_dynamic c.
Proof.
  unfold category_dynamic. simpl.
  rewrite count_dynamic_erased, get_dict_map, values_dict_map, map_map.
  f_equal. f_equal. apply map_ext. intros g. simpl.
  apply count_dynamic_erased.
Qed.

Lemma statistics_erased (data : tree_data) :
  statistics (erase_ids data) = statistics data.
Proof.
  apply injective_projections; unfold statistics;
    rewrite ?statistics_total, ?statistics_dynamic; simpl;
    rewrite get_dict_map, values_dict_map, map_map; f_equal;
    apply map_ext; intros c.
  - apply category_entries_erased.
  - apply category_dynamic_erased.
Qed.

Lemma markdown_frame_erased (data : tree_data) :
  markdown_header (erase_ids data) = markdown_header data
  /\ markdown_statistics (erase_ids data) = markdown_statistics data.
Proof.
  unfold markdown_header, markdown_statistics, total_shortcuts,
    dynamic_count.
  rewrite statistics_erased. simpl.
  now rewrite get_dict_map, length_dict_map.
Qed.

Section MarkdownIds.

Variable include_dynamic : bool.

Lemma markdown_entry_omits (indent : string) (item : string * entry_data) :
  omits_id (markdown_entry_line true include_dynamic indent item)
           (markdown_entry_line false include_dynamic indent item).
Proof.
  destruct item as [k d]. unfold markdown_entry_line.
  do 5 apply omits_id_after. apply id_str_omitted.
Qed.

Lemma markdown_category_omits (item : string * cat_data) :
  Forall2 omits_id (markdown_category_lines true include_dynamic item)
                   (markdown_category_lines false include_dynamic item).
Proof.
  unfold markdown_category_lines. constructor; [constructor|].
  apply Forall2_app.
  - apply Forall2_map_same, markdown_entry_omits.
  - apply Forall2_flat_map_same. intros g.
    unfold markdown_subgroup_lines. constructor; [constructor|].
    apply Forall2_map_same, markdown_entry_omits.
Qed.

Lemma markdown_category_erased (item : string * cat_data) :
  markdown_category_lines true include_dynamic
                          (fst item, erase_cat_ids (snd item))
  = markdown_category_lines false include_dynamic item.
Proof.
  destruct item as [k c]. unfold markdown_category_lines. f_equal.
  cbn [snd erase_cat_ids cat_shortcuts cat_subgroups].
  rewrite !get_dict_map. unfold dict_map. rewrite map_map, flat_map_map.
  f_equal.
  - apply map_ext. now intros [k' d].
  - apply flat_map_ext. intros [k' g]. unfold markdown_subgroup_lines.
    f_equal. cbn [snd erase_subgroup_ids subgroup_shortcuts].
    rewrite get_dict_map. unfold dict_map. rewrite map_map.
    apply map_ext. now intros [k'' d].
Qed.

End MarkdownIds.

(** X15. In markdown, as in compact mode, the lines without the ids are the
    lines with the ids less the annotation [" (ID: n)"], one for one; and
    the report without the ids, statistics included, is the report with
    the ids of the tree from which every ['id'] has been taken away. *)
Theorem ids_toggle_markdown (include_dynamic : bool) (data : tree_data) :
  Forall2 omits_id (markdown_lines true include_dynamic data)
                   (markdown_lines false include_dynamic data)
  /\ markdown_lines false include_dynamic data
     = markdown_lines true include_dynamic (erase_ids data).
Proof.
  rewrite !markdown_lines_eq. split.
  - apply Forall2_app; [apply Forall2_same; constructor|].
    apply Forall2_app; [|apply Forall2_same; constructor].
    apply Forall2_flat_map_same, markdown_category_omits.
  - destruct (markdown_frame_erased data) as [-> ->]. f_equal. f_equal.
    cbn [erase_ids categories]. rewrite get_dict_map.
    unfold dict_map. rewrite flat_map_map.
    symmetry. apply flat_map_ext. intros item.
    apply markdown_category_erased.
Qed.

(** ** The reports of a document that [main] has written *)

Lemma dict_map_dict_map {U V W : Type} (f : U -> V) (g : V -> W)
    (d : dict U) :
  dict_map g (dict_map f d) = dict_map (fun x => g (f x)) d.
Proof. unfold dict_map. rewrite map_map. reflexivity. Qed.

Lemma dict_map_ext {V W : Type} (f g : V -> W) (d : dict V) :
  (forall x, f x = g x) -> dict_map f d = dict_map g d.
Proof. intros H. apply map_ext. intros item. now rewrite H. Qed.

Lemma entries_not_dynamic (o : option (dict normalized)) :
  option_map (dict_map erase_entry_dynamic)
             (option_map (dict_map entry_of) o)
  = option_map (dict_map entry_of) o.
Proof.
  destruct o as [d|]; [|reflexivity]. simpl. f_equal.
  now rewrite dict_map_dict_map.
Qed.

Lemma subgroup_not_dynamic (p : normalized) :
  erase_subgroup_dynamic (subgroup_of p) = subgroup_of p.
Proof.
  unfold erase_subgroup_dynamic, subgroup_of. simpl. f_equal.
  destruct p as [s|n k i d]; [reflexivity|].
  apply (entries_not_dynamic (Some d)).
Qed.

Lemma cat_not_dynamic (c : category) :
  erase_cat_dynamic (cat_of c) = cat_of c.
Proof.
  unfold erase_cat_dynamic, cat_of. simpl. f_equal.
  - apply entries_not_dynamic.
  - destruct (category_subgroups c) as [d|]; [|reflexivity]. simpl. f_equal.
    rewrite dict_map_dict_map. apply dict_map_ext, subgroup_not_dynamic.
Qed.

Lemma tree_not_dynamic (o : output) :
  erase_dynamic (tree_of o) = tree_of o.
Proof.
  unfold erase_dynamic, tree_of. simpl. f_equal. f_equal.
  rewrite dict_map_dict_map. apply dict_map_ext, cat_not_dynamic.
Qed.

Lemma count_not_dynamic (d : dict normalized) :
  count_dynamic (dict_map entry_of d) = 0%nat.
Proof.
  rewrite count_dynamic_eq, values_dict_map.
  induction (values d) as [|p l IH]; [reflexivity|exact IH].
Qed.

Lemma category_not_dynamic (c : category) :
  category_dynamic (cat_of c) = 0%nat.
Proof.
  unfold category_dynamic, cat_of. simpl.
  rewrite !get_dict_map, count_not_dynamic, values_dict_map, map_map.
  simpl. induction (values (get (category_subgroups c) [])) as [|p l IH];
    [reflexivity|].
  simpl. rewrite IH, Nat.add_0_r.
  destruct p as [s|n k i d]; [reflexivity|apply count_not_dynamic].
Qed.

(** X16. [parse-shortcuts.py] writes no ['dynamic']: in the reports of a
    document that it has written, the count of dynamic shortcuts is zero
    and the toggle of the marks changes nothing, in either mode. *)
Theorem written_tree_not_dynamic (o : output) (include_ids : bool) :
  dynamic_count (tree_of o) = 0%nat
  /\ text_lines include_ids true (tree_of o)
     = text_lines include_ids false (tree_of o)
  /\ markdown_lines include_ids true (tree_of o)
     = markdown_lines include_ids false (tree_of o).
Proof.
  repeat split.
  - unfold dynamic_count, statistics. rewrite statistics_dynamic. simpl.
    rewrite values_dict_map, map_map.
    induction (values (output_categories o)) as [|c l IH]; [reflexivity|].
    simpl. now rewrite category_not_dynamic, IH.
  - rewrite text_lines_undynamic. now rewrite tree_not_dynamic.
  - rewrite !markdown_lines_eq. f_equal. f_equal.
    rewrite <- (tree_not_dynamic o) at 1.
    cbn [erase_dynamic categories]. rewrite get_dict_map.
    unfold dict_map at 1. rewrite flat_map_map.
    apply flat_map_ext. intros item. apply markdown_category_undynamic.
Qed.

(** ** A node with a hotkey identifier and children *)

(** X17. The hotkey identifier is looked at before the children: the children
    of a node that carries one are never read, neither when the node is
    the child of a group nor when it is the child of a category. *)
Theorem hotkey_children_ignored (element : rawnode) (i : Z)
    (l l' : list rawnode) :
  sybmolichotkey element = Some i ->
  parse_shortcut_element (with_elements l element)
  = parse_shortcut_element (with_elements l' element)
  /\ (forall shortcuts,
        group_step parse_shortcut_element shortcuts (with_elements l element)
        = group_step parse_shortcut_element shortcuts
                     (with_elements l' element))
  /\ (forall acc,
        category_step acc (with_elements l element)
        = category_step acc (with_elements l' element)).
Proof.
  intros H.
  assert (P : parse_shortcut_element (with_elements l element)
              = parse_shortcut_element (with_elements l' element)).
  { rewrite !parse_shortcut_element_eq. simpl. now rewrite H. }
  split; [exact P|split].
  - intros d. unfold group_step. now rewrite P.
  - intros acc.
    assert (S : forall x, is_subgroup (with_elements x element) = false)
      by (intros x; unfold is_subgroup; simpl; now rewrite H).
    unfold category_step. now rewrite !S, P.
Qed.

Lemma hotkey_children_ignored_witness :
  sybmolichotkey (with_hotkey 64 (named "Turn Do Not Disturb On/Off"))
  = Some 64%Z
  /\ parse_shortcut_element
       (with_elements [heading]
          (with_hotkey 64 (named "Turn Do Not Disturb On/Off")))
     = parse_shortcut_element
         (with_elements []
            (with_hotkey 64 (named "Turn Do Not Disturb On/Off"))).
Proof.
  split; [reflexivity|].
  apply (hotkey_children_ignored
           (with_hotkey 64 (named "Turn Do Not Disturb On/Off")) 64
           [heading] []).
  reflexivity.
Defined.
